(** * backoff: the retry driver and its signal errors

    A shallow embedding of the Go package [backoff]: the signal errors of
    error.go ([PermanentError], [Permanent], [RetryAfterError],
    [RetryAfter]) and the driver of retry.go ([retryOptions], the
    [With...] option setters and [Retry]).

    Conventions.
    - A [time.Duration] is an [int64] count of nanoseconds: a [Z], with the
      wrap-around of the one multiplication the package performs written
      out ([wrap64]).
    - A Go value of interface type [error] is an [option errval]: [None] is
      [nil], [Some e] a non-nil error whose dynamic value is [e].
    - [uint] is taken to be 64 bits wide; [numTries++] wraps ([uint_wrap]).
    - The driver talks to collaborators it does not own (the operation, the
      clock, the context, the timer). What they answer is given by an
      oracle [Env], indexed by the number of the attempt; what the driver
      asks of them is recorded, in order, in a trace of [event]s. *)

From Stdlib Require Import ZArith String List Bool Lia.
Import ListNotations.

Local Open Scope Z_scope.

(** ** time *)

Module time.

Definition Duration := Z.

Definition Nanosecond : Duration := 1.
Definition Microsecond : Duration := 1000 * Nanosecond.
Definition Millisecond : Duration := 1000 * Microsecond.
Definition Second : Duration := 1000 * Millisecond.
Definition Minute : Duration := 60 * Second.

(** Two's-complement wrap-around of an [int64] result. *)
Definition wrap64 (z : Z) : Z := (z + 2 ^ 63) mod 2 ^ 64 - 2 ^ 63.

End time.

Abbreviation Duration := time.Duration.

(** ** error.go *)

(** The dynamic values an [error] can hold. [errorString] is what
    [errors.New] builds and [wrapError] what [fmt.Errorf] builds around one
    [%w] operand; the other two are the package's own pointer types
    [*PermanentError] and [*RetryAfterError]. The field [Err] of a
    [PermanentError] is itself an [error], so it may be nil. *)
#[warnings="-register-all"]
Inductive errval : Type :=
| errorString (s : string)
| wrapError (msg : string) (err : errval)
| PermanentError (Err : option errval)
| RetryAfterError (Duration : Duration).

Definition error : Type := option errval.

(** [func Permanent(err error) error] *)
Definition Permanent (err : error) : error :=
  match err with
  | None => None
  | Some e => Some (PermanentError (Some e))
  end.

(** [func RetryAfter(seconds int) error]:
    [time.Duration(seconds) * time.Second], an [int64] product. *)
Definition RetryAfter (seconds : Z) : error :=
  Some (RetryAfterError (time.wrap64 (seconds * time.Second))).

(** The method [Unwrap() error]. [*PermanentError] declares it in error.go;
    a [wrapError] returns its operand; [errorString] and [*RetryAfterError]
    have no such method, which [errors.As] treats as the end of the chain. *)
Definition Unwrap (e : errval) : error :=
  match e with
  | errorString _ => None
  | wrapError _ err => Some err
  | PermanentError Err => Err
  | RetryAfterError _ => None
  end.

Section ErrorMethod.

(** [time.Duration.String], used by [fmt.Sprintf] for the verb [%s]; it
    belongs to the Go library and is left abstract. *)
Variable DurationString : Duration -> string.

(** The method [Error() string]. [None] stands for the run-time panic of
    the method of [PermanentError] when [e.Err] is nil. *)
Fixpoint Error (e : errval) : option string :=
  match e with
  | errorString s => Some s
  | wrapError msg _ => Some msg
  | PermanentError Err =>
      match Err with
      | Some e' => Error e'
      | None => None
      end
  | RetryAfterError d => Some ("retry after " ++ DurationString d)%string
  end.

End ErrorMethod.

(** [errors.As(err, &permanent)] with [permanent] a [PermanentError]
    pointer, as [Retry] calls it: the chain of [err] is followed through
    [Unwrap] until a value of the target's type is met. The result is the
    [Err] field of that value; [None] when [errors.As] reports false.
    [asRetryAfter] is the same search for a [RetryAfterError] pointer; it
    yields the [Duration] field. *)
Fixpoint asPermanent (e : errval) : option (option errval) :=
  match e with
  | errorString _ => None
  | wrapError _ err => asPermanent err
  | PermanentError Err => Some Err
  | RetryAfterError _ => None
  end.

Fixpoint asRetryAfter (e : errval) : option Duration :=
  match e with
  | errorString _ => None
  | wrapError _ err => asRetryAfter err
  | PermanentError Err =>
      match Err with
      | Some e' => asRetryAfter e'
      | None => None
      end
  | RetryAfterError d => Some d
  end.

Definition isSome {A : Type} (o : option A) : bool :=
  match o with Some _ => true | None => false end.

(** ** retry.go: the collaborators *)

(** [const DefaultMaxElapsedTime = 15 * time.Minute] *)
Definition DefaultMaxElapsedTime : Duration := 15 * time.Minute.

(** Modelled from the spec: the constant [Stop] that [Retry] compares the
    next delay with is declared with the [BackOff] interface, outside the
    sources at hand; the specification gives it as the distinguished
    duration -1. *)
Definition Stop : Duration := -1.

(** Modelled from the spec: the interface [BackOff] is declared outside the
    sources at hand; the specification gives it two operations,
    [NextBackOff()], which answers a duration or [Stop], and [Reset()].
    A value of the interface is an object of some implementation type,
    packed with its two methods; a method updates the object in place, so
    here it returns the new object. *)
Record BackOff : Type := mkBackOff {
  impl : Type;
  self : impl;
  next_impl : impl -> Duration * impl;
  reset_impl : impl -> impl
}.

Definition NextBackOff (b : BackOff) : Duration * BackOff :=
  (fst (next_impl b (self b)),
   mkBackOff (impl b) (snd (next_impl b (self b))) (next_impl b) (reset_impl b)).

Definition Reset (b : BackOff) : BackOff :=
  mkBackOff (impl b) (reset_impl b (self b)) (next_impl b) (reset_impl b).

Arguments NextBackOff : simpl never.
Arguments Reset : simpl never.

(** Modelled from the spec: the interface [Timer] (a scheduled wake-up:
    [Start(d)], [C()] and [Stop()] in [Retry]) is declared outside the
    sources at hand. A value of it is the package's own [defaultTimer] or a
    timer of the caller; what the driver does with it is recorded as
    events, and whether it fires is part of [Env]. *)
Inductive Timer : Type :=
| defaultTimer
| callerTimer (id : nat).

(** How the [select] of [Retry] ends: the timer's channel delivers, or the
    context's [Done] channel is closed, in which case [ctx.Err()] is read
    once more and gives [cerr]. *)
Inductive waitOutcome : Type :=
| TimerFired
| CtxDone (cerr : error).

(** The calls [Retry] makes on its collaborators, with what was passed or
    what came back. *)
Inductive event : Type :=
| EvReset
| EvOperation (err : error)
| EvSince (elapsed : Duration)
| EvNextBackOff (next : Duration)
| EvCtxErr (cerr : error)
| EvNotify (err : error) (next : Duration)
| EvTimerStart (t : Timer) (next : Duration)
| EvSelect (w : waitOutcome)
| EvTimerStop (t : Timer).

(** The [return] statement through which [Retry] leaves, in the order of
    the source (lines 90, 94, 98, 103, 108, 112 and 123). *)
Inductive exit : Type :=
| ReturnSuccess
| ReturnMaxTries
| ReturnMaxElapsedTime
| ReturnPermanent
| ReturnStop
| ReturnCtxErr
| ReturnCtxDone.

(** [uint], and the wrap-around of [numTries++]. *)
Definition uint_wrap (z : Z) : Z := z mod 2 ^ 64.

(** [type retryOptions struct]. The fields [BackOff], [Timer] and [Notify]
    carry the prefix [opt], their names being those of the types.
    [Notify] is a function value the driver only calls: the field records
    whether it is non-nil, the call is an event. *)
Record retryOptions : Type := mkRetryOptions {
  optBackOff : BackOff;
  optTimer : Timer;
  optNotify : bool;
  MaxElapsedTime : Duration;
  MaxTries : Z
}.

(** [type RetryOption]: a function that updates the [retryOptions] it is
    handed a pointer to. *)
Definition RetryOption : Type := retryOptions -> retryOptions.

Definition WithBackOff (b : BackOff) : RetryOption :=
  fun args => mkRetryOptions b (optTimer args) (optNotify args)
                (MaxElapsedTime args) (MaxTries args).


(** [WithNotify(n)]: [n_is_set] is [n != nil]. *)
Definition WithNotify (n_is_set : bool) : RetryOption :=
  fun args => mkRetryOptions (optBackOff args) (optTimer args) n_is_set
                (MaxElapsedTime args) (MaxTries args).

Definition WithMaxElapsedTime (d : Duration) : RetryOption :=
  fun args => mkRetryOptions (optBackOff args) (optTimer args) (optNotify args)
                d (MaxTries args).

Definition WithMaxTries (n : Z) : RetryOption :=
  fun args => mkRetryOptions (optBackOff args) (optTimer args) (optNotify args)
                (MaxElapsedTime args) n.

(** ** retry.go: the driver *)

Section Driver.

(** The type parameter of [Operation[T]] and [Retry[T]]. *)
Variable T : Type.

(** [NewExponentialBackOff()], the default of the field [BackOff]; its
    source is not at hand, and no property of it is assumed. *)
Variable NewExponentialBackOff : BackOff.

(** What the collaborators answer in the attempt of index [k] (from 0):
    the [k]-th invocation of the operation, the reading of
    [time.Since(startedAt)] at line 97, that of [ctx.Err()] at line 111
    and the way the [select] of line 120 ends. *)
Record Env : Type := mkEnv {
  operation : nat -> T * error;
  since : nat -> Duration;
  ctxErr : nat -> error;
  selected : nat -> waitOutcome
}.

(** What changes while [Retry] runs: the object behind [args.BackOff],
    the number of invocations of the operation so far, and the calls made
    so far, oldest first. *)
Record state : Type := mkState {
  backoff : BackOff;
  calls : nat;
  trace : list event
}.

(** The pair [Retry] returns, and the [return] statement it came from. *)
Record outcome : Type := mkOutcome {
  res : T;
  err : error;
  site : exit
}.

(** Statements of the loop body: they update the state and either go on
    with a value ([inl]) or leave [Retry] with an outcome ([inr]). *)
Definition M (A : Type) : Type := state -> (A + outcome) * state.

Definition ret {A : Type} (a : A) : M A := fun s => (inl a, s).

Definition bind {A B : Type} (m : M A) (f : A -> M B) : M B :=
  fun s =>
    match m s with
    | (inl a, s') => f a s'
    | (inr out, s') => (inr out, s')
    end.

Definition return_ {A : Type} (r : T) (e : error) (x : exit) : M A :=
  fun s => (inr (mkOutcome r e x), s).

Definition emit (ev : event) : M unit :=
  fun s => (inl tt, mkState (backoff s) (calls s) (trace s ++ [ev])).

Definition attemptIndex : M nat := fun s => (inl (calls s), s).

Definition callOperation (env : Env) : M (T * error) :=
  fun s =>
    let r := operation env (calls s) in
    (inl r, mkState (backoff s) (S (calls s))
              (trace s ++ [EvOperation (snd r)])).

Definition callNextBackOff : M Duration :=
  fun s =>
    let r := NextBackOff (backoff s) in
    (inl (fst r), mkState (snd r) (calls s)
                    (trace s ++ [EvNextBackOff (fst r)])).

Notation "x <- m ;; k" := (bind m (fun x => k))
  (at level 61, m at next level, right associativity).
Notation "m ;; k" := (bind m (fun _ => k))
  (at level 61, right associativity).

(** The body of the [for] loop, lines 88 to 124. *)
Definition attempt (env : Env) (args : retryOptions) (numTries : Z) : M unit :=
  k <- attemptIndex ;;
  r <- callOperation env ;;
  match snd r with
  | None => return_ (fst r) None ReturnSuccess
  | Some e =>
      if (0 <? MaxTries args) && (MaxTries args <=? numTries) then
        return_ (fst r) (Some e) ReturnMaxTries
      else
        emit (EvSince (since env k)) ;;
        if MaxElapsedTime args <? since env k then
          return_ (fst r) (Some e) ReturnMaxElapsedTime
        else if isSome (asPermanent e) then
          return_ (fst r) (Some e) ReturnPermanent
        else
          next <- callNextBackOff ;;
          if next =? Stop then
            return_ (fst r) (Some e) ReturnStop
          else
            emit (EvCtxErr (ctxErr env k)) ;;
            match ctxErr env k with
            | Some cerr => return_ (fst r) (Some cerr) ReturnCtxErr
            | None =>
                (if optNotify args then emit (EvNotify (Some e) next)
                 else ret tt) ;;
                emit (EvTimerStart (optTimer args) next) ;;
                emit (EvSelect (selected env k)) ;;
                match selected env k with
                | TimerFired => ret tt
                | CtxDone cerr => return_ (fst r) cerr ReturnCtxDone
                end
            end
  end.

(** [for numTries := uint(1); ; numTries++ { ... }], run for at most
    [fuel] attempts: [None] when the loop has not returned by then. *)
Fixpoint loop (fuel : nat) (env : Env) (args : retryOptions)
    (numTries : Z) (s : state) : option outcome * state :=
  match fuel with
  | O => (None, s)
  | S fuel' =>
      match attempt env args numTries s with
      | (inr out, s') => (Some out, s')
      | (inl _, s') => loop fuel' env args (uint_wrap (numTries + 1)) s'
      end
  end.

(** The options with which [Retry] starts, and the given ones applied in
    order. *)
Definition defaultOptions : retryOptions :=
  mkRetryOptions NewExponentialBackOff defaultTimer false
    DefaultMaxElapsedTime 0.

Definition applyOptions (opts : list RetryOption) : retryOptions :=
  fold_left (fun args opt => opt args) opts defaultOptions.

(** The state in which [Retry] enters its loop, lines 85 and 86: the
    clock has been read (later readings of [time.Since(startedAt)] come
    from [env]) and [args.BackOff.Reset()] has been called. *)
Definition start (args : retryOptions) : state :=
  mkState (Reset (optBackOff args)) 0 [EvReset].

(** [defer args.Timer.Stop()], run when [Retry] returns. *)
Definition stopTimer (args : retryOptions) (s : state) : state :=
  mkState (backoff s) (calls s) (trace s ++ [EvTimerStop (optTimer args)]).

(** [func Retry[T any](ctx, operation, opts...) (T, error)]. The context
    and the operation are in [env]. *)
Definition Retry (fuel : nat) (env : Env) (opts : list RetryOption)
    : option outcome * state :=
  let args := applyOptions opts in
  match loop fuel env args 1 (start args) with
  | (Some out, s) => (Some out, stopTimer args s)
  | (None, s) => (None, s)
  end.

End Driver.

Arguments mkEnv {T}.
Arguments operation {T}.
Arguments since {T}.
Arguments ctxErr {T}.
Arguments selected {T}.
Arguments mkOutcome {T}.
Arguments res {T}.
Arguments err {T}.
Arguments site {T}.
Arguments attempt {T}.
Arguments loop {T}.
Arguments Retry {T}.

(** ** Notions used to state the properties of [Retry] *)

(** The check of line 93. *)
Definition maxTriesReached (args : retryOptions) (numTries : Z) : bool :=
  (0 <? MaxTries args) && (MaxTries args <=? numTries).

(** The generator after [k] calls of [NextBackOff]. *)
Fixpoint nextN (k : nat) (b : BackOff) : BackOff :=
  match k with
  | O => b
  | S k' => snd (NextBackOff (nextN k' b))
  end.

(** [advance k env args numTries s]: the loop counter and the state at the
    top of the loop after [k] further attempts, each of which ended by
    going round the loop; [None] if one of them returned instead. *)
Fixpoint advance {T : Type} (k : nat) (env : Env T) (args : retryOptions)
    (numTries : Z) (s : state) : option (Z * state) :=
  match k with
  | O => Some (numTries, s)
  | S k' =>
      match attempt env args numTries s with
      | (inl _, s') => advance k' env args (uint_wrap (numTries + 1)) s'
      | (inr _, _) => None
      end
  end.

(** [Retry] comes to its attempt of index [k] (the [k+1]-th invocation of
    the operation) with the loop counter [numTries] and in the state [s]. *)
Definition begins {T : Type} (env : Env T) (args : retryOptions) (k : nat)
    (numTries : Z) (s : state) : Prop :=
  advance k env args 1 (start args) = Some (numTries, s).

(** The attempt of index [k] fails and is followed by another one: the
    error is not permanent, the checks of lines 93, 97, 107 and 111 do not
    fire (the generator is at its [k]-th call since [Reset]) and the wait
    ends by the timer. *)
Definition retriedAt {T : Type} (env : Env T) (args : retryOptions)
    (k : nat) : bool :=
  match snd (operation env k) with
  | None => false
  | Some e =>
      negb (maxTriesReached args (uint_wrap (Z.of_nat k + 1))) &&
      (since env k <=? MaxElapsedTime args) &&
      negb (isSome (asPermanent e)) &&
      negb (fst (NextBackOff (nextN k (Reset (optBackOff args)))) =? Stop) &&
      match ctxErr env k with None => true | Some _ => false end &&
      match selected env k with TimerFired => true | CtxDone _ => false end
  end.

(** The events one attempt adds to the trace. *)
Definition eventsOfAttempt {T : Type} (env : Env T) (args : retryOptions)
    (numTries : Z) (s : state) : list event :=
  skipn (length (trace s)) (trace (snd (attempt env args numTries s))).

Definition isNotify (ev : event) : bool :=
  match ev with EvNotify _ _ => true | _ => false end.

Definition isReset (ev : event) : bool :=
  match ev with EvReset => true | _ => false end.

Definition isNextBackOff (ev : event) : bool :=
  match ev with EvNextBackOff _ => true | _ => false end.

Definition isOperation (ev : event) : bool :=
  match ev with EvOperation _ => true | _ => false end.

Definition isTimerStart (ev : event) : bool :=
  match ev with EvTimerStart _ _ => true | _ => false end.

(** The events by which the driver learns that the context is cancelled:
    [ctx.Err()] answers a non-nil error at line 111, or the [select] ends
    by the context's [Done] channel. *)
Definition detectsCancel (ev : event) : bool :=
  match ev with
  | EvCtxErr (Some _) => true
  | EvSelect (CtxDone _) => true
  | _ => false
  end.

(** Every call of [Notify] in [tr] is made with the error the operation
    has just returned and the delay the generator has just computed, after
    [ctx.Err()] answered nil, and is followed at once by [Timer.Start] with
    that delay; there is none unless the option is set. *)
Definition notifyPlaced (args : retryOptions) (tr : list event) : Prop :=
  forall pre post e d,
    tr = pre ++ EvNotify e d :: post ->
    optNotify args = true /\
    (exists pre' elapsed,
        pre = pre' ++ [EvOperation e; EvSince elapsed; EvNextBackOff d;
                       EvCtxErr None]) /\
    (exists post', post = EvTimerStart (optTimer args) d :: post').

(** When the option is set, every [Timer.Start] in [tr] comes right after
    a call of [Notify] with the same delay. *)
Definition waitsNotified (args : retryOptions) (tr : list event) : Prop :=
  optNotify args = true ->
  forall pre post t d,
    tr = pre ++ EvTimerStart t d :: post ->
    exists pre' e, pre = pre' ++ [EvNotify e d].

(** How many events of a kind a trace holds. *)
Definition count (p : event -> bool) (tr : list event) : nat :=
  length (filter p tr).

(** ** Generators, operations and contexts used in the examples *)

(** A generator that always answers [d]. *)
Definition constantBackOff (d : Duration) : BackOff :=
  mkBackOff unit tt (fun _ => (d, tt)) (fun _ => tt).

(** A generator that answers its current interval and doubles it; [Reset]
    brings the interval back to [initial]. *)
Definition doublingBackOff (initial : Duration) : BackOff :=
  mkBackOff Duration initial (fun cur => (cur, 2 * cur)) (fun _ => initial).

(** A generator that always answers [Stop]. *)
Definition stopBackOff : BackOff :=
  mkBackOff unit tt (fun _ => (Stop, tt)) (fun _ => tt).

(** The generator of the examples: 500 ms, doubled at each call. *)
Definition exampleBackOff : BackOff := doublingBackOff (500 * time.Millisecond).

(** The current interval of a [doublingBackOff], read through the object. *)
Definition nextDelay (b : BackOff) : Duration := fst (NextBackOff b).

Definition errX : errval := errorString "x".

Definition canceled : errval := errorString "context canceled".

(** A world in which the operation gives [results k] at its invocation of
    index [k], each attempt reads [elapsed] on the clock, the context is
    never cancelled and every wait ends by the timer. *)
Definition quietEnv {T : Type} (results : nat -> T * error)
    (elapsed : Duration) : Env T :=
  mkEnv results (fun _ => elapsed) (fun _ => None) (fun _ => TimerFired).

(** The same with a context that is cancelled from the beginning. *)
Definition cancelledEnv {T : Type} (results : nat -> T * error)
    (elapsed : Duration) : Env T :=
  mkEnv results (fun _ => elapsed) (fun _ => Some canceled)
    (fun _ => CtxDone (Some canceled)).

(** An operation that fails [n] times with [e], then succeeds with [v]. *)
Definition failsThenSucceeds {T : Type} (n : nat) (e : error) (zero v : T)
    (k : nat) : T * error :=
  if (k <? n)%nat then (zero, e) else (v, None).

(** An operation that always fails with [e]. *)
Definition alwaysFails {T : Type} (e : error) (zero : T) (k : nat) : T * error :=
  (zero, e).

(** ** Further notions: the timer, the order of the invocations *)

Definition isTimerStop (ev : event) : bool :=
  match ev with EvTimerStop _ => true | _ => false end.

(** Every [Timer.Start] in [tr] is made on the configured timer, with the
    delay [NextBackOff] has just answered, which is not [Stop], after
    [ctx.Err()] answered nil (and after the call of [Notify] when there is
    one), and is followed at once by the [select]. *)
Definition timerStartPlaced (args : retryOptions) (tr : list event) : Prop :=
  forall pre post t d,
    tr = pre ++ EvTimerStart t d :: post ->
    t = optTimer args /\
    d <> Stop /\
    (exists w post', post = EvSelect w :: post') /\
    (exists pre' e,
        pre = pre' ++ EvNextBackOff d :: EvCtxErr None ::
                (if optNotify args then [EvNotify e d] else [])).

(** The trace stands where the operation may be invoked: right after the
    [Reset] that opens it, or right after a wait that the timer ended. *)
Definition readyToInvoke (tr : list event) : Prop :=
  tr = [EvReset] \/
  exists pre t d, tr = pre ++ [EvTimerStart t d; EvSelect TimerFired].

(** Every invocation of the operation in [tr] stands at such a place. *)
Definition invokedAfterWait (tr : list event) : Prop :=
  forall pre e post,
    tr = pre ++ EvOperation e :: post -> readyToInvoke pre.

(** An error wrapped by [fmt.Errorf] around a [%w] operand once for each
    message of [msgs], the first message outermost. *)
Definition wrapMany (msgs : list string) (e : errval) : errval :=
  fold_right wrapError e msgs.

(** ** example_test.go: the operation of [ExampleRetry] *)

(** What one call of the operation meets: the error of [http.Get] (nil when
    a response came), the status code of the response, and the value
    [strconv.ParseInt] reads in the [Retry-After] header ([None] when it
    reports an error). *)
Record httpReply : Type := mkHttpReply {
  getErr : error;
  StatusCode : Z;
  retryAfterSeconds : option Z
}.

(** The [operation] of the second [ExampleRetry], lines 70 to 95. *)
Definition exampleOperation (reply : httpReply) : string * error :=
  match getErr reply with
  | Some e => (EmptyString, Some e)
  | None =>
      if StatusCode reply =? 400 then
        (EmptyString, Permanent (Some (errorString "bad request")))
      else
        match (if StatusCode reply =? 429 then retryAfterSeconds reply
               else None) with
        | Some seconds => (EmptyString, RetryAfter seconds)
        | None => ("hello"%string, None)
        end
  end.

(** The world of [ExampleRetry]: the server answers [replies k] to the
    request of index [k]; the rest is as in [quietEnv]. *)
Definition exampleEnv (replies : nat -> httpReply) (elapsed : Duration)
    : Env string :=
  quietEnv (fun k => exampleOperation (replies k)) elapsed.

(** * Properties *)

(** ** The signal errors *)

Lemma Permanent_nil : Permanent None = None.
Proof. reflexivity. Qed.

(** [errors.As] finds the [PermanentError] that [Permanent] builds. *)
Lemma asPermanent_Permanent (e : errval) :
  exists p, Permanent (Some e) = Some p /\ asPermanent p = Some (Some e).
Proof. exists (PermanentError (Some e)). split; reflexivity. Qed.

(** C8. [Permanent(nil)] is nil; for a non-nil [e], [Permanent(e)] is a
    non-nil error [p] whose [Unwrap()] is exactly [e] and whose [Error()]
    is [e.Error()], whatever the library prints for a duration. *)
Theorem C8_Permanent_wraps_transparently :
  Permanent None = None /\
  forall e : errval,
    exists p : errval,
      Permanent (Some e) = Some p /\
      Unwrap p = Some e /\
      forall DurationString, Error DurationString p = Error DurationString e.
Proof.
  split; [exact Permanent_nil|].
  intros e. exists (PermanentError (Some e)).
  repeat split.
Qed.

(** ** One attempt *)

Section RetryFacts.

Context {T : Type}.
Variable NewExponentialBackOff : BackOff.

Implicit Types (env : Env T) (args : retryOptions) (s : state).
Implicit Types (numTries : Z) (k fuel : nat) (out : outcome T).

(** Case analysis on the tests of the loop body, in their order. *)
Ltac attempt_cases env args numTries s :=
  unfold attempt, bind, attemptIndex, callOperation, callNextBackOff,
    emit, ret, return_; cbn;
  let r := fresh "r" in
  let e := fresh "e" in
  let cerr := fresh "cerr" in
  destruct (operation env (calls s)) as [r [e|]] eqn:Hop; cbn;
  [ fold (maxTriesReached args numTries);
    destruct (maxTriesReached args numTries) eqn:Htries; cbn;
    [ | destruct (MaxElapsedTime args <? since env (calls s)) eqn:Hsince;
        cbn;
        [ | destruct (isSome (asPermanent e)) eqn:Hperm; cbn;
            [ | destruct (fst (NextBackOff (backoff s)) =? Stop) eqn:Hstop;
                cbn;
                [ | destruct (ctxErr env (calls s)) as [cerr|] eqn:Hctx;
                    cbn;
                    [ | destruct (optNotify args) eqn:Hnotify; cbn;
                        destruct (selected env (calls s)) as [|cerr]
                          eqn:Hsel; cbn ] ] ] ] ]
  | ].

Lemma attempt_calls env args numTries s :
  calls (snd (attempt env args numTries s)) = S (calls s).
Proof. attempt_cases env args numTries s; reflexivity. Qed.

Lemma skipn_length_app {A : Type} (a b : list A) :
  skipn (length a) (a ++ b) = b.
Proof. induction a; simpl; auto. Qed.

Lemma attempt_trace env args numTries s :
  trace (snd (attempt env args numTries s)) =
  trace s ++ eventsOfAttempt env args numTries s.
Proof.
  unfold eventsOfAttempt.
  attempt_cases env args numTries s;
    repeat rewrite <- app_assoc; rewrite skipn_length_app; reflexivity.
Qed.

(** The attempt goes round the loop exactly when the operation fails with
    an error that is not permanent, none of the checks of lines 93 to 113
    fires and the wait ends by the timer; the generator has then been
    asked once. *)
Lemma attempt_continues env args numTries s u s' :
  attempt env args numTries s = (inl u, s') ->
  (exists r e,
      operation env (calls s) = (r, Some e) /\ asPermanent e = None) /\
  maxTriesReached args numTries = false /\
  since env (calls s) <= MaxElapsedTime args /\
  fst (NextBackOff (backoff s)) <> Stop /\
  ctxErr env (calls s) = None /\
  selected env (calls s) = TimerFired /\
  backoff s' = snd (NextBackOff (backoff s)) /\
  calls s' = S (calls s).
Proof.
  attempt_cases env args numTries s; intros H; inversion H; subst; clear H;
    (repeat split; cbn; auto;
     [ exists r, e; split; auto; destruct (asPermanent e); auto; discriminate
     | apply Z.ltb_ge; auto
     | apply Z.eqb_neq; auto ]).
Qed.

(** ** The loop *)

Lemma advance_snoc k : forall env args numTries s nt1 s1 u s2,
  advance k env args numTries s = Some (nt1, s1) ->
  attempt env args nt1 s1 = (inl u, s2) ->
  advance (S k) env args numTries s = Some (uint_wrap (nt1 + 1), s2).
Proof.
  induction k as [|k IH]; intros env args numTries s nt1 s1 u s2 Hk Ha.
  - cbn [advance] in Hk. inversion Hk; subst. cbn [advance]. rewrite Ha. reflexivity.
  - cbn [advance] in Hk. cbn [advance].
    destruct (attempt env args numTries s) as [[u0|out] s0] eqn:E;
      [|discriminate].
    apply (IH _ _ _ _ _ _ _ _ Hk Ha).
Qed.

Lemma advance_last k : forall env args numTries s nt2 s2,
  advance (S k) env args numTries s = Some (nt2, s2) ->
  exists nt1 s1 u,
    advance k env args numTries s = Some (nt1, s1) /\
    attempt env args nt1 s1 = (inl u, s2) /\
    nt2 = uint_wrap (nt1 + 1).
Proof.
  induction k as [|k IH]; intros env args numTries s nt2 s2 H.
  - cbn [advance loop] in H.
    destruct (attempt env args numTries s) as [[u|out] s0] eqn:E;
      [|discriminate].
    inversion H; subst. exists numTries, s, u. cbn [advance]. auto.
  - remember (S k) as k1. cbn [advance loop] in H.
    destruct (attempt env args numTries s) as [[u|out] s0] eqn:E;
      [|discriminate].
    subst k1. destruct (IH _ _ _ _ _ _ H) as (nt1 & s1 & u1 & H1 & H2 & H3).
    exists nt1, s1, u1. cbn [advance]. rewrite E. auto.
Qed.

Lemma advance_shorter k : forall j env args numTries s nt s',
  advance k env args numTries s = Some (nt, s') ->
  (j <= k)%nat ->
  exists nt1 s1, advance j env args numTries s = Some (nt1, s1).
Proof.
  induction k as [|k IH]; intros j env args numTries s nt s' H Hj.
  - assert (j = 0%nat) by lia. subst. eauto.
  - destruct (Nat.eq_dec j (S k)) as [->|Hne]; [eauto|].
    destruct (advance_last _ _ _ _ _ _ _ H) as (nt1 & s1 & u & H1 & _ & _).
    apply (IH j _ _ _ _ _ _ H1). lia.
Qed.

Lemma loop_advance k : forall fuel env args numTries s nt s',
  advance k env args numTries s = Some (nt, s') ->
  loop (k + fuel) env args numTries s = loop fuel env args nt s'.
Proof.
  induction k as [|k IH]; intros fuel env args numTries s nt s' H.
  - cbn [advance loop] in H. inversion H; subst. reflexivity.
  - cbn [advance loop] in H. cbn [loop Nat.add].
    destruct (attempt env args numTries s) as [[u|out] s0] eqn:E;
      [|discriminate].
    apply IH. exact H.
Qed.

(** A run of the loop either has not returned, and has then made [fuel]
    attempts, or returned from its attempt of some index [k < fuel]. *)
Lemma loop_inv fuel : forall env args numTries s o sf,
  loop fuel env args numTries s = (o, sf) ->
  (o = None /\ exists nt, advance fuel env args numTries s = Some (nt, sf)) \/
  (exists k nt s' out,
      (k < fuel)%nat /\
      advance k env args numTries s = Some (nt, s') /\
      attempt env args nt s' = (inr out, sf) /\
      o = Some out).
Proof.
  induction fuel as [|fuel IH]; intros env args numTries s o sf H.
  - cbn [advance loop] in H. inversion H; subst. left. split; auto. exists numTries. reflexivity.
  - cbn [advance loop] in H.
    destruct (attempt env args numTries s) as [[u|out] s0] eqn:E.
    + destruct (IH _ _ _ _ _ _ H) as [[Ho [nt Hn]]|(k & nt & s' & out & Hk & Hadv & Hatt & Ho)].
      * left. split; auto. exists nt. cbn [advance]. rewrite E. exact Hn.
      * right. exists (S k), nt, s', out. repeat split; auto; try lia.
        cbn [advance]. rewrite E. exact Hadv.
    + inversion H; subst. right. exists 0%nat, numTries, s, out.
      repeat split; auto. lia.
Qed.

Lemma loop_returns k env args numTries s nt s' out sf fuel :
  advance k env args numTries s = Some (nt, s') ->
  attempt env args nt s' = (inr out, sf) ->
  (k < fuel)%nat ->
  loop fuel env args numTries s = (Some out, sf).
Proof.
  intros Hadv Hatt Hlt.
  replace fuel with (k + S (fuel - S k))%nat by lia.
  rewrite (loop_advance _ _ _ _ _ _ _ _ Hadv). cbn [loop]. rewrite Hatt. reflexivity.
Qed.

(** ** The whole call *)

Lemma Retry_inv fuel env opts o sf :
  Retry NewExponentialBackOff fuel env opts = (o, sf) ->
  let args := applyOptions NewExponentialBackOff opts in
  (o = None /\ exists nt, begins env args fuel nt sf) \/
  (exists k nt s out s',
      (k < fuel)%nat /\
      begins env args k nt s /\
      attempt env args nt s = (inr out, s') /\
      o = Some out /\
      sf = stopTimer args s').
Proof.
  intros H args. unfold Retry in H. fold args in H. unfold begins.
  destruct (loop fuel env args 1 (start args)) as [[out|] s1] eqn:E;
    inversion H; subst; clear H;
    destruct (loop_inv _ _ _ _ _ _ _ E)
      as [[Ho [nt Hn]]|(k & nt & s' & out' & Hk & Hadv & Hatt & Ho)];
    try discriminate.
  - inversion Ho; subst. right. exists k, nt, s', out', s1. repeat split; auto.
  - left. split; auto. exists nt. exact Hn.
Qed.

Lemma Retry_returns k env opts nt s out s' fuel :
  begins env (applyOptions NewExponentialBackOff opts) k nt s ->
  attempt env (applyOptions NewExponentialBackOff opts) nt s = (inr out, s') ->
  (k < fuel)%nat ->
  Retry NewExponentialBackOff fuel env opts =
  (Some out, stopTimer (applyOptions NewExponentialBackOff opts) s').
Proof.
  unfold Retry, begins. intros Hadv Hatt Hlt.
  rewrite (loop_returns _ _ _ _ _ _ _ _ _ _ Hadv Hatt Hlt). reflexivity.
Qed.

Lemma uint_wrap_succ z : uint_wrap (uint_wrap z + 1) = uint_wrap (z + 1).
Proof. unfold uint_wrap. apply Z.add_mod_idemp_l. lia. Qed.

(** At the top of its attempt of index [k], [Retry] has invoked the
    operation [k] times, [numTries] is [k + 1] as a [uint], and the
    generator has been asked [k] times since it was reset. *)
Lemma begins_facts k : forall env args nt s,
  begins env args k nt s ->
  calls s = k /\
  nt = uint_wrap (Z.of_nat k + 1) /\
  backoff s = nextN k (Reset (optBackOff args)).
Proof.
  unfold begins. induction k as [|k IH]; intros env args nt s H.
  - cbn [advance] in H. inversion H; subst. cbn. auto.
  - destruct (advance_last _ _ _ _ _ _ _ H) as (nt1 & s1 & u & H1 & H2 & H3).
    destruct (IH _ _ _ _ H1) as (Hc & Hn & Hb).
    destruct (attempt_continues _ _ _ _ _ _ H2)
      as (_ & _ & _ & _ & _ & _ & Hb' & Hc').
    repeat split.
    + lia.
    + subst nt nt1. rewrite uint_wrap_succ. f_equal. lia.
    + rewrite Hb', Hb. reflexivity.
Qed.

(** [Retry] comes to its attempt of index [k] exactly when each earlier
    attempt was followed by another one. *)
Lemma begins_retried k : forall env args,
  (forall j, (j < k)%nat -> retriedAt env args j = true) ->
  exists nt s, begins env args k nt s.
Proof.
  induction k as [|k IH]; intros env args H.
  - exists 1, (start args). reflexivity.
  - destruct (IH env args) as (nt & s & Hb); [intros; apply H; lia|].
    destruct (begins_facts _ _ _ _ _ Hb) as (Hc & Hn & Hbo).
    specialize (H k (Nat.lt_succ_diag_r k)). unfold retriedAt in H.
    rewrite <- Hn, <- Hbo in H.
    destruct (attempt env args nt s) as [[u|out] s2] eqn:E.
    + exists (uint_wrap (nt + 1)), s2. eapply advance_snoc; eauto.
    + exfalso. revert E. rewrite <- Hc in H.
      attempt_cases env args nt s; intros E; cbn in H;
        repeat rewrite ?Htries, ?Hperm, ?Hstop, ?Hctx, ?Hsel,
          ?andb_false_r in H; cbn in H; try discriminate.
      apply Z.ltb_lt in Hsince.
      assert ((since env (calls s) <=? MaxElapsedTime args) = false)
        as Hle by (apply Z.leb_gt; lia).
      rewrite Hle in H. cbn in H. discriminate.
Qed.

Lemma retried_begins k env args nt s j :
  begins env args k nt s ->
  (j < k)%nat ->
  retriedAt env args j = true.
Proof.
  intros Hb Hj.
  destruct (advance_shorter _ (S j) _ _ _ _ _ _ Hb ltac:(lia)) as (nt2 & s2 & H2).
  destruct (advance_last _ _ _ _ _ _ _ H2) as (nt1 & s1 & u & H1 & Ha & _).
  destruct (begins_facts _ _ _ _ _ H1) as (Hc & Hn & Hbo).
  destruct (attempt_continues _ _ _ _ _ _ Ha)
    as ((r & e & Hop & Hp) & Ht & Hs & Hstop & Hctx & Hsel & _ & _).
  unfold retriedAt. rewrite <- Hn, <- Hbo, <- Hc, Hop. cbn [snd].
  rewrite Ht, Hp, Hctx, Hsel. cbn.
  apply Z.leb_le in Hs. rewrite Hs.
  apply Z.eqb_neq in Hstop. rewrite Hstop. reflexivity.
Qed.

(** ** Success *)

Lemma attempt_success env args numTries s v :
  operation env (calls s) = (v, None) ->
  attempt env args numTries s =
  (inr (mkOutcome v None ReturnSuccess),
   mkState (backoff s) (S (calls s)) (trace s ++ [EvOperation None])).
Proof.
  intros Hv. unfold attempt, bind, attemptIndex, callOperation, return_.
  cbn. rewrite Hv. reflexivity.
Qed.

Lemma success_returns env opts k nt s v fuel :
  begins env (applyOptions NewExponentialBackOff opts) k nt s ->
  operation env k = (v, None) ->
  (k < fuel)%nat ->
  exists sf,
    Retry NewExponentialBackOff fuel env opts =
    (Some (mkOutcome v None ReturnSuccess), sf) /\
    calls sf = S k /\
    trace sf =
    trace s ++
    [EvOperation None;
     EvTimerStop (optTimer (applyOptions NewExponentialBackOff opts))].
Proof.
  intros Hb Hv Hlt.
  destruct (begins_facts _ _ _ _ _ Hb) as (Hc & _ & _).
  rewrite <- Hc in Hv.
  pose proof (attempt_success env (applyOptions NewExponentialBackOff opts)
                nt s v Hv) as Ha.
  eexists. split; [exact (Retry_returns _ _ _ _ _ _ _ _ Hb Ha Hlt)|].
  cbn. rewrite Hc, <- app_assoc. auto.
Qed.



(** ** Cancellation *)

(** Case analysis on one attempt that also lists the events it adds. *)
Ltac events_cases env args numTries s :=
  unfold eventsOfAttempt;
  attempt_cases env args numTries s;
  rewrite <- ?app_assoc; rewrite ?skipn_length_app; cbn [app].

Ltac in_list H :=
  cbn [In] in H;
  repeat (destruct H as [H|H]; [try discriminate H|]);
  try contradiction.

(** The context is consulted (by [ctx.Err()] at line 111, or in the
    [select]) only in an attempt whose operation failed with an error
    that is not permanent and that none of the checks of lines 93, 97 and
    107 has ended. *)
Lemma attempt_consults env args numTries s ev :
  In ev (eventsOfAttempt env args numTries s) ->
  (exists c, ev = EvCtxErr c) \/ (exists w, ev = EvSelect w) ->
  exists r e,
    operation env (calls s) = (r, Some e) /\
    maxTriesReached args numTries = false /\
    since env (calls s) <= MaxElapsedTime args /\
    asPermanent e = None /\
    fst (NextBackOff (backoff s)) <> Stop.
Proof.
  intros Hin Hev.
  assert (Hk : forall x, In ev x ->
               (forall a, In a x -> match a with
                                    | EvCtxErr _ | EvSelect _ => False
                                    | _ => True end) -> False).
  { intros x Hx Hall. specialize (Hall ev Hx).
    destruct Hev as [[c ->]|[w ->]]; exact Hall. }
  revert Hin. events_cases env args numTries s; intros Hin;
    try (exfalso; apply (Hk _ Hin); intros a Ha; in_list Ha; subst a; exact I);
    (exists r, e; repeat split; auto;
     [ apply Z.ltb_ge; auto
     | destruct (asPermanent e); auto; discriminate
     | apply Z.eqb_neq; auto ]).
Qed.

(** C10. If an invocation of the operation succeeds, [Retry] returns its
    result with a nil error, whatever the context answers (it may have
    been cancelled before or during the invocation): the context is
    consulted only after a failed attempt has passed the [MaxTries],
    [MaxElapsedTime], permanent-error and [Stop] checks. *)
Theorem C10_success_takes_precedence_over_cancellation :
  forall (env : Env T) (opts : list RetryOption) k nt s,
    begins env (applyOptions NewExponentialBackOff opts) k nt s ->
    (forall v fuel,
        operation env k = (v, None) ->
        (k < fuel)%nat ->
        exists sf,
          Retry NewExponentialBackOff fuel env opts =
          (Some (mkOutcome v None ReturnSuccess), sf) /\
          calls sf = S k) /\
    (forall ev,
        In ev (eventsOfAttempt env (applyOptions NewExponentialBackOff opts)
                 nt s) ->
        (exists c, ev = EvCtxErr c) \/ (exists w, ev = EvSelect w) ->
        exists r e,
          operation env k = (r, Some e) /\
          maxTriesReached (applyOptions NewExponentialBackOff opts) nt = false /\
          since env k <= MaxElapsedTime (applyOptions NewExponentialBackOff opts) /\
          asPermanent e = None /\
          fst (NextBackOff (backoff s)) <> Stop).
Proof.
  intros env opts k nt s Hb. split.
  - intros v fuel Hv Hlt.
    destruct (success_returns env opts k nt s v fuel Hb Hv Hlt)
      as (sf & Hr & Hc & _).
    exists sf. auto.
  - intros ev Hin Hev.
    destruct (begins_facts _ _ _ _ _ Hb) as (Hc & _ & _).
    rewrite <- Hc. exact (attempt_consults _ _ _ _ _ Hin Hev).
Qed.






(** ** The shape of the trace *)

Lemma app_split {A : Type} (a b pre post : list A) (x : A) :
  a ++ b = pre ++ x :: post ->
  (exists post1, a = pre ++ x :: post1 /\ post = post1 ++ b) \/
  (exists pre2, pre = a ++ pre2 /\ b = pre2 ++ x :: post).
Proof.
  revert pre. induction a as [|y a IH]; intros pre H.
  - right. exists pre. auto.
  - destruct pre as [|z pre]; cbn [app] in H.
    + inversion H; subst. left. exists a. auto.
    + inversion H; subst.
      destruct (IH _ H2) as [(post1 & -> & ->)|(pre2 & -> & ->)].
      * left. exists post1. auto.
      * right. exists pre2. auto.
Qed.

(** A property of traces that is kept by concatenation and holds of the
    events of every attempt holds at the top of the loop, and of the trace
    of every run of [Retry]. *)
Lemma begins_trace_closed (P : list event -> Prop) env args :
  (forall a b, P a -> P b -> P (a ++ b)) ->
  P [EvReset] ->
  (forall numTries s, P (eventsOfAttempt env args numTries s)) ->
  forall k nt s, begins env args k nt s -> P (trace s).
Proof.
  intros Happ HR Hstep. unfold begins.
  induction k as [|k IH]; intros nt s H.
  - cbn [advance] in H. inversion H; subst. exact HR.
  - destruct (advance_last _ _ _ _ _ _ _ H) as (nt1 & s1 & u & H1 & H2 & _).
    pose proof (attempt_trace env args nt1 s1) as Ht.
    rewrite H2 in Ht. cbn [snd] in Ht. rewrite Ht.
    apply Happ; [eapply IH; eauto|apply Hstep].
Qed.

Lemma Retry_trace_closed (P : list event -> Prop) env opts :
  (forall a b, P a -> P b -> P (a ++ b)) ->
  P [EvReset] ->
  P [EvTimerStop (optTimer (applyOptions NewExponentialBackOff opts))] ->
  (forall numTries s,
      P (eventsOfAttempt env (applyOptions NewExponentialBackOff opts)
           numTries s)) ->
  forall fuel, P (trace (snd (Retry NewExponentialBackOff fuel env opts))).
Proof.
  intros Happ HR HS Hstep fuel.
  destruct (Retry NewExponentialBackOff fuel env opts) as [o sf] eqn:E.
  destruct (Retry_inv _ _ _ _ _ E)
    as [[_ [nt Hb]]|(k & nt & s & out & s' & _ & Hb & Ha & _ & ->)]; cbn [snd].
  - eapply begins_trace_closed; eauto.
  - cbn [stopTimer trace]. apply Happ; [|exact HS].
    pose proof (attempt_trace env (applyOptions NewExponentialBackOff opts)
                  nt s) as Ht.
    rewrite Ha in Ht. cbn [snd] in Ht. rewrite Ht.
    apply Happ; [eapply begins_trace_closed; eauto|apply Hstep].
Qed.

(** ** Notify *)

Lemma notifyPlaced_app args a b :
  notifyPlaced args a -> notifyPlaced args b -> notifyPlaced args (a ++ b).
Proof.
  intros Ha Hb pre post e d H.
  destruct (app_split _ _ _ _ _ H) as [(post1 & H1 & ->)|(pre2 & -> & H2)].
  - destruct (Ha _ _ _ _ H1) as (Hn & Hpre & (post' & ->)).
    repeat split; auto. exists (post' ++ b). reflexivity.
  - destruct (Hb _ _ _ _ H2) as (Hn & (pre' & el & ->) & Hpost).
    repeat split; auto. exists (a ++ pre'), el. rewrite app_assoc. reflexivity.
Qed.

Lemma waitsNotified_app args a b :
  waitsNotified args a -> waitsNotified args b -> waitsNotified args (a ++ b).
Proof.
  intros Ha Hb Hn pre post t d H.
  destruct (app_split _ _ _ _ _ H) as [(post1 & H1 & ->)|(pre2 & -> & H2)].
  - exact (Ha Hn _ _ _ _ H1).
  - destruct (Hb Hn _ _ _ _ H2) as (pre' & e & ->).
    exists (a ++ pre'), e. rewrite app_assoc. reflexivity.
Qed.

(** Where an event can stand in a list that is written out. *)
Ltac find_split H pre :=
  destruct pre as [|? pre]; cbn [app] in H;
  [ inversion H; subst; clear H
  | first [ discriminate H
          | injection H as ? H; subst; find_split H pre ] ].

Lemma notifyPlaced_attempt env args numTries s :
  notifyPlaced args (eventsOfAttempt env args numTries s).
Proof.
  events_cases env args numTries s; intros pre post e0 d H;
    find_split H pre.
  - repeat split; auto.
    + exists [], (since env (calls s)). reflexivity.
    + eexists. reflexivity.
  - repeat split; auto.
    + exists [], (since env (calls s)). reflexivity.
    + eexists. reflexivity.
Qed.

Lemma waitsNotified_attempt env args numTries s :
  waitsNotified args (eventsOfAttempt env args numTries s).
Proof.
  events_cases env args numTries s; intros Hn pre post t d H;
    try congruence; find_split H pre.
  - eexists [_; _; _; _], _. reflexivity.
  - eexists [_; _; _; _], _. reflexivity.
Qed.

Lemma notifyPlaced_single args ev :
  isNotify ev = false -> notifyPlaced args [ev].
Proof.
  intros Hev pre post e d H. find_split H pre; discriminate Hev.
Qed.

Lemma waitsNotified_single args ev :
  isTimerStart ev = false -> waitsNotified args [ev].
Proof.
  intros Hev _ pre post t d H. find_split H pre; discriminate Hev.
Qed.

(** The attempt through which [Retry] returns calls [Notify] only if it
    returns from the [select]. *)
Lemma returning_events_notify env args numTries s out s' e d :
  attempt env args numTries s = (inr out, s') ->
  site out <> ReturnCtxDone ->
  ~ In (EvNotify e d) (eventsOfAttempt env args numTries s).
Proof.
  events_cases env args numTries s; intros H Hsite Hin;
    inversion H; subst; clear H; cbn [site] in Hsite;
    try (apply Hsite; reflexivity); in_list Hin.
Qed.

(** C7. In every run of [Retry], each call of [Notify] is made with the
    error the operation has just returned and the delay the generator has
    just computed, and is followed at once by the start of the wait for
    that delay; when [Notify] is configured every wait is preceded by
    such a call; and the attempt through which [Retry] returns (success,
    [MaxTries], [MaxElapsedTime], permanent error, [Stop], or
    cancellation found before the wait) makes no call of [Notify]. *)
Theorem C7_Notify_before_each_wait_never_on_return :
  forall fuel (env : Env T) (opts : list RetryOption),
    (forall pre post e d,
        trace (snd (Retry NewExponentialBackOff fuel env opts)) =
        pre ++ EvNotify e d :: post ->
        optNotify (applyOptions NewExponentialBackOff opts) = true /\
        (exists pre' elapsed,
            pre = pre' ++ [EvOperation e; EvSince elapsed; EvNextBackOff d;
                           EvCtxErr None]) /\
        (exists post',
            post =
            EvTimerStart (optTimer (applyOptions NewExponentialBackOff opts)) d
              :: post')) /\
    (optNotify (applyOptions NewExponentialBackOff opts) = true ->
     forall pre post t d,
       trace (snd (Retry NewExponentialBackOff fuel env opts)) =
       pre ++ EvTimerStart t d :: post ->
       exists pre' e, pre = pre' ++ [EvNotify e d]) /\
    (forall k nt s out s' e d,
        begins env (applyOptions NewExponentialBackOff opts) k nt s ->
        attempt env (applyOptions NewExponentialBackOff opts) nt s =
        (inr out, s') ->
        site out <> ReturnCtxDone ->
        ~ In (EvNotify e d)
            (eventsOfAttempt env (applyOptions NewExponentialBackOff opts)
               nt s)).
Proof.
  intros fuel env opts. split; [|split].
  - apply (Retry_trace_closed
             (notifyPlaced (applyOptions NewExponentialBackOff opts))).
    + apply notifyPlaced_app.
    + apply notifyPlaced_single. reflexivity.
    + apply notifyPlaced_single. reflexivity.
    + apply notifyPlaced_attempt.
  - apply (Retry_trace_closed
             (waitsNotified (applyOptions NewExponentialBackOff opts))).
    + apply waitsNotified_app.
    + apply waitsNotified_single. reflexivity.
    + apply waitsNotified_single. reflexivity.
    + apply waitsNotified_attempt.
  - intros k nt s out s' e d _ Ha Hsite.
    exact (returning_events_notify _ _ _ _ _ _ e d Ha Hsite).
Qed.

(** ** Reset *)

Lemma count_app p (a b : list event) :
  count p (a ++ b) = (count p a + count p b)%nat.
Proof.
  unfold count. induction a as [|x a IH]; cbn; auto.
  destruct (p x); cbn; rewrite IH; reflexivity.
Qed.

Lemma nextN_add j : forall k b, nextN (k + j) b = nextN j (nextN k b).
Proof.
  induction j as [|j IH]; intros k b.
  - rewrite Nat.add_0_r. reflexivity.
  - rewrite Nat.add_succ_r. cbn [nextN]. rewrite IH. reflexivity.
Qed.

(** One attempt never calls [Reset], and leaves the generator as the
    calls of [NextBackOff] it has made leave it. *)
Lemma attempt_generator env args numTries s :
  Forall (fun ev => isReset ev = false) (eventsOfAttempt env args numTries s) /\
  backoff (snd (attempt env args numTries s)) =
  nextN (count isNextBackOff (eventsOfAttempt env args numTries s)) (backoff s).
Proof.
  events_cases env args numTries s; split; try reflexivity;
    repeat constructor.
Qed.

Lemma loop_generator fuel : forall env args numTries s,
  exists tl,
    trace (snd (loop fuel env args numTries s)) = trace s ++ tl /\
    Forall (fun ev => isReset ev = false) tl /\
    backoff (snd (loop fuel env args numTries s)) =
    nextN (count isNextBackOff tl) (backoff s).
Proof.
  induction fuel as [|fuel IH]; intros env args numTries s.
  - exists []. cbn. rewrite app_nil_r. auto.
  - cbn [loop].
    pose proof (attempt_trace env args numTries s) as Ht.
    destruct (attempt_generator env args numTries s) as (Hr & Hb).
    destruct (attempt env args numTries s) as [[u|out] s1] eqn:E;
      cbn [snd] in *.
    + destruct (IH env args (uint_wrap (numTries + 1)) s1)
        as (tl & Htl & Hnr & Hbo).
      exists (eventsOfAttempt env args numTries s ++ tl).
      rewrite Htl, Ht, <- app_assoc. repeat split.
      * apply Forall_app. auto.
      * rewrite Hbo, Hb, count_app, nextN_add. reflexivity.
    + exists (eventsOfAttempt env args numTries s). auto.
Qed.

(** The counter [calls] is the number of invocations of the operation the
    trace records. *)
Lemma attempt_one_invocation env args numTries s :
  count isOperation (eventsOfAttempt env args numTries s) = 1%nat.
Proof. events_cases env args numTries s; reflexivity. Qed.

Lemma loop_calls fuel : forall env args numTries s,
  calls s = count isOperation (trace s) ->
  calls (snd (loop fuel env args numTries s)) =
  count isOperation (trace (snd (loop fuel env args numTries s))).
Proof.
  induction fuel as [|fuel IH]; intros env args numTries s Hs.
  - exact Hs.
  - cbn [loop].
    pose proof (attempt_trace env args numTries s) as Ht.
    pose proof (attempt_calls env args numTries s) as Hc.
    pose proof (attempt_one_invocation env args numTries s) as H1.
    destruct (attempt env args numTries s) as [[u|out] s1] eqn:E;
      cbn [snd] in *.
    + apply IH. rewrite Hc, Ht, count_app, H1, Hs. lia.
    + rewrite Hc, Ht, count_app, H1, Hs. lia.
Qed.

Lemma Retry_calls_trace fuel env opts :
  calls (snd (Retry NewExponentialBackOff fuel env opts)) =
  count isOperation (trace (snd (Retry NewExponentialBackOff fuel env opts))).
Proof.
  unfold Retry.
  pose proof (loop_calls fuel env (applyOptions NewExponentialBackOff opts) 1
                (start (applyOptions NewExponentialBackOff opts)) eq_refl) as H.
  destruct (loop fuel env (applyOptions NewExponentialBackOff opts) 1
              (start (applyOptions NewExponentialBackOff opts)))
    as [[out|] s1]; cbn [snd stopTimer calls trace] in *; auto.
  rewrite count_app, H. cbn. lia.
Qed.

(** C9. [Retry] calls [Reset()] on the configured generator exactly once,
    as its first call, before any invocation of the operation, and never
    again: the generator it leaves behind is the configured one, reset,
    then advanced by the calls of [NextBackOff] of this run alone. *)
Theorem C9_Reset_once_before_the_first_attempt :
  forall fuel (env : Env T) (opts : list RetryOption),
  exists tl,
    trace (snd (Retry NewExponentialBackOff fuel env opts)) = EvReset :: tl /\
    (forall ev, In ev tl -> isReset ev = false) /\
    backoff (snd (Retry NewExponentialBackOff fuel env opts)) =
    nextN (count isNextBackOff tl)
      (Reset (optBackOff (applyOptions NewExponentialBackOff opts))).
Proof.
  intros fuel env opts. unfold Retry.
  destruct (loop_generator fuel env (applyOptions NewExponentialBackOff opts)
              1 (start (applyOptions NewExponentialBackOff opts)))
    as (tl & Htl & Hnr & Hbo).
  destruct (loop fuel env (applyOptions NewExponentialBackOff opts) 1
              (start (applyOptions NewExponentialBackOff opts)))
    as [[out|] s1]; cbn [snd stopTimer trace backoff start] in *.
  - exists (tl ++ [EvTimerStop (optTimer (applyOptions NewExponentialBackOff opts))]).
    rewrite Htl. repeat split.
    + intros ev Hin. apply in_app_or in Hin. destruct Hin as [Hin|Hin].
      * rewrite Forall_forall in Hnr. auto.
      * in_list Hin. subst ev. reflexivity.
    + rewrite Hbo, count_app. cbn. rewrite Nat.add_0_r. reflexivity.
  - exists tl. rewrite Htl. repeat split; auto.
    rewrite Forall_forall in Hnr. auto.
Qed.

(** ** The checks that end the loop *)

(** What holds when an attempt returns, by the [return] statement taken. *)
Lemma attempt_returns env args numTries s out s' :
  attempt env args numTries s = (inr out, s') ->
  calls s' = S (calls s) /\
  res out = fst (operation env (calls s)) /\
  match site out with
  | ReturnSuccess =>
      snd (operation env (calls s)) = None /\ err out = None
  | ReturnMaxTries =>
      snd (operation env (calls s)) <> None /\
      err out = snd (operation env (calls s)) /\
      maxTriesReached args numTries = true
  | ReturnMaxElapsedTime =>
      snd (operation env (calls s)) <> None /\
      err out = snd (operation env (calls s)) /\
      maxTriesReached args numTries = false /\
      MaxElapsedTime args < since env (calls s)
  | ReturnPermanent =>
      err out = snd (operation env (calls s)) /\
      maxTriesReached args numTries = false /\
      since env (calls s) <= MaxElapsedTime args /\
      exists e, err out = Some e /\ asPermanent e <> None
  | ReturnStop =>
      snd (operation env (calls s)) <> None /\
      err out = snd (operation env (calls s)) /\
      fst (NextBackOff (backoff s)) = Stop
  | ReturnCtxErr =>
      err out <> None /\ err out = ctxErr env (calls s)
  | ReturnCtxDone =>
      selected env (calls s) = CtxDone (err out)
  end.
Proof.
  attempt_cases env args numTries s; intros H; inversion H; subst; clear H;
    cbn; repeat split; auto; try discriminate;
    try (apply Z.ltb_lt; assumption);
    try (apply Z.ltb_ge; assumption);
    try (apply Z.eqb_eq; assumption).
  exists e. split; auto. destruct (asPermanent e); [discriminate|discriminate].
Qed.

Lemma attempt_maxTries env args numTries s r e :
  operation env (calls s) = (r, Some e) ->
  maxTriesReached args numTries = true ->
  attempt env args numTries s =
  (inr (mkOutcome r (Some e) ReturnMaxTries),
   mkState (backoff s) (S (calls s)) (trace s ++ [EvOperation (Some e)])).
Proof.
  intros Hr Hm. unfold maxTriesReached in Hm.
  unfold attempt, bind, attemptIndex, callOperation, return_.
  cbn. rewrite Hr. cbn. rewrite Hm. reflexivity.
Qed.

Lemma attempt_maxElapsedTime env args numTries s r e :
  operation env (calls s) = (r, Some e) ->
  maxTriesReached args numTries = false ->
  MaxElapsedTime args < since env (calls s) ->
  attempt env args numTries s =
  (inr (mkOutcome r (Some e) ReturnMaxElapsedTime),
   mkState (backoff s) (S (calls s))
     (trace s ++ [EvOperation (Some e); EvSince (since env (calls s))])).
Proof.
  intros Hr Hm Hs. unfold maxTriesReached in Hm. apply Z.ltb_lt in Hs.
  unfold attempt, bind, attemptIndex, callOperation, return_, emit.
  cbn. rewrite Hr. cbn. rewrite Hm. cbn. rewrite Hs. cbn.
  rewrite <- app_assoc. reflexivity.
Qed.

(** [Retry] comes to its attempt of index [m], or has returned before. *)
Lemma begins_or_returned env args m :
  (exists nt s, begins env args m nt s) \/
  (exists k nt s out s',
      (k < m)%nat /\ begins env args k nt s /\
      attempt env args nt s = (inr out, s')).
Proof.
  induction m as [|m IH].
  - left. exists 1, (start args). reflexivity.
  - destruct IH as [(nt & s & Hb)|(k & nt & s & out & s' & Hk & Hb & Ha)].
    + destruct (attempt env args nt s) as [[u|out] s1] eqn:E.
      * left. exists (uint_wrap (nt + 1)), s1. eapply advance_snoc; eauto.
      * right. exists m, nt, s, out, s1. auto.
    + right. exists k, nt, s, out, s'. auto.
Qed.

Lemma begins_unique env args k nt1 s1 nt2 s2 :
  begins env args k nt1 s1 -> begins env args k nt2 s2 ->
  nt1 = nt2 /\ s1 = s2.
Proof. unfold begins. intros H1 H2. rewrite H1 in H2. inversion H2. auto. Qed.

Lemma uint_wrap_small z : 0 <= z < 2 ^ 64 -> uint_wrap z = z.
Proof. intros H. unfold uint_wrap. apply Z.mod_small. exact H. Qed.

(** An error that unwraps to a [PermanentError] ends the call at that
    attempt, by the check of line 93, 97 or 102: there is no wait and no
    call of [Notify], and the error returned is the one the operation
    returned, as it returned it. *)
Lemma permanent_error_ends_the_call env opts k nt s r e fuel :
  begins env (applyOptions NewExponentialBackOff opts) k nt s ->
  operation env k = (r, Some e) ->
  asPermanent e <> None ->
  (k < fuel)%nat ->
  exists x sf,
    Retry NewExponentialBackOff fuel env opts =
    (Some (mkOutcome r (Some e) x), sf) /\
    calls sf = S k /\
    forall ev,
      In ev (eventsOfAttempt env (applyOptions NewExponentialBackOff opts) nt s) ->
      isNotify ev = false /\ isTimerStart ev = false.
Proof.
  intros Hb Hr Hp Hlt.
  destruct (begins_facts _ _ _ _ _ Hb) as (Hc & _).
  rewrite <- Hc in Hr.
  assert (Ha : exists x s',
             attempt env (applyOptions NewExponentialBackOff opts) nt s =
             (inr (mkOutcome r (Some e) x), s') /\
             forall ev,
               In ev (eventsOfAttempt env
                        (applyOptions NewExponentialBackOff opts) nt s) ->
               isNotify ev = false /\ isTimerStart ev = false).
  { revert Hr.
    events_cases env (applyOptions NewExponentialBackOff opts) nt s;
      intros Hr; inversion Hr; subst;
      try (destruct (asPermanent e); [discriminate Hperm|contradiction]);
      (eexists _, _; split; [reflexivity|]);
      intros ev Hin; in_list Hin; subst ev; auto. }
  destruct Ha as (x & s' & Ha & Hev).
  exists x, (stopTimer (applyOptions NewExponentialBackOff opts) s').
  split; [exact (Retry_returns _ _ _ _ _ _ _ _ Hb Ha Hlt)|].
  split; [|exact Hev].
  pose proof (attempt_calls env (applyOptions NewExponentialBackOff opts) nt s)
    as Hcs.
  rewrite Ha in Hcs. cbn in *. lia.
Qed.

Lemma maxTries_return env opts n k nt s fuel :
  0 < n < 2 ^ 64 ->
  MaxTries (applyOptions NewExponentialBackOff opts) = n ->
  snd (operation env k) <> None ->
  S k = Z.to_nat n ->
  begins env (applyOptions NewExponentialBackOff opts) k nt s ->
  (k < fuel)%nat ->
  exists sf,
    Retry NewExponentialBackOff fuel env opts =
    (Some (mkOutcome (fst (operation env k)) (snd (operation env k))
             ReturnMaxTries), sf) /\
    calls sf = S k.
Proof.
  intros Hn HM Hfail Hk Hb Hlt.
  destruct (begins_facts _ _ _ _ _ Hb) as (Hc & Hnt & _).
  destruct (operation env k) as [r [e|]] eqn:Hop; [|contradiction].
  assert (Hm : maxTriesReached (applyOptions NewExponentialBackOff opts) nt
               = true).
  { unfold maxTriesReached. rewrite HM, Hnt.
    replace (Z.of_nat k + 1) with n by lia.
    rewrite (uint_wrap_small n) by lia.
    apply andb_true_intro. split; [apply Z.ltb_lt|apply Z.leb_le]; lia. }
  rewrite <- Hc in Hop.
  pose proof (attempt_maxTries env _ nt s r e Hop Hm) as Ha.
  eexists. split; [exact (Retry_returns _ _ _ _ _ _ _ _ Hb Ha Hlt)|].
  cbn. lia.
Qed.

(** C4, amended. With [MaxTries = n > 0] and an operation that always
    fails, [Retry] returns after at most [n] invocations; when each of the
    first [n - 1] failures is followed by a new attempt (no other check
    ends the call first) it invokes the operation exactly [n] times and
    returns the [n]-th result and error as the operation gave them. With
    [MaxTries = 0] no run returns through the check on the number of
    attempts, and a run whose every failure is followed by a new attempt
    never returns. *)
Theorem C4_MaxTries_caps_the_attempts :
  forall (env : Env T) (opts : list RetryOption),
    (forall n fuel,
        0 < n < 2 ^ 64 ->
        MaxTries (applyOptions NewExponentialBackOff opts) = n ->
        (forall k, snd (operation env k) <> None) ->
        (Z.to_nat n <= fuel)%nat ->
        (exists out sf,
            Retry NewExponentialBackOff fuel env opts = (Some out, sf) /\
            (calls sf <= Z.to_nat n)%nat) /\
        ((forall j, (S j < Z.to_nat n)%nat ->
                    retriedAt env (applyOptions NewExponentialBackOff opts) j
                    = true) ->
         exists sf,
           Retry NewExponentialBackOff fuel env opts =
           (Some (mkOutcome (fst (operation env (pred (Z.to_nat n))))
                    (snd (operation env (pred (Z.to_nat n))))
                    ReturnMaxTries), sf) /\
           calls sf = Z.to_nat n)) /\
    (MaxTries (applyOptions NewExponentialBackOff opts) = 0 ->
     (forall fuel out sf,
         Retry NewExponentialBackOff fuel env opts = (Some out, sf) ->
         site out <> ReturnMaxTries) /\
     ((forall j, retriedAt env (applyOptions NewExponentialBackOff opts) j
                 = true) ->
      forall fuel,
        fst (Retry NewExponentialBackOff fuel env opts) = None /\
        calls (snd (Retry NewExponentialBackOff fuel env opts)) = fuel)).
Proof.
  intros env opts. split.
  - intros n fuel Hn HM Hfail Hfuel.
    assert (Hpred : S (pred (Z.to_nat n)) = Z.to_nat n) by lia.
    split.
    + destruct (begins_or_returned env
                  (applyOptions NewExponentialBackOff opts) (pred (Z.to_nat n)))
        as [(nt & s & Hb)|(k & nt & s & out & s' & Hk & Hb & Ha)].
      * assert (Hlt : (pred (Z.to_nat n) < fuel)%nat) by lia.
        destruct (maxTries_return env opts n _ nt s fuel Hn HM
                    (Hfail _) Hpred Hb Hlt) as (sf & HR & Hc).
        eexists _, sf. split; [exact HR|]. rewrite Hc, Hpred. apply Nat.le_refl.
      * assert (Hlt : (k < fuel)%nat) by lia.
        eexists out, _.
        split; [exact (Retry_returns _ _ _ _ _ _ _ _ Hb Ha Hlt)|].
        destruct (attempt_returns _ _ _ _ _ _ Ha) as (Hc & _).
        destruct (begins_facts _ _ _ _ _ Hb) as (Hcs & _).
        cbn. lia.
    + intros Hret.
      destruct (begins_retried (pred (Z.to_nat n)) env
                  (applyOptions NewExponentialBackOff opts))
        as (nt & s & Hb).
      { intros j Hj. apply Hret. lia. }
      assert (Hlt : (pred (Z.to_nat n) < fuel)%nat) by lia.
      destruct (maxTries_return env opts n _ nt s fuel Hn HM
                  (Hfail _) Hpred Hb Hlt) as (sf & HR & Hc).
      exists sf. split; [exact HR|]. rewrite Hc. exact Hpred.
  - intros HM. split.
    + intros fuel out sf HR Hsite.
      destruct (Retry_inv _ _ _ _ _ HR)
        as [[Ho _]|(k & nt & s & out' & s' & _ & Hb & Ha & Ho & _)];
        [discriminate|].
      inversion Ho; subst out'.
      destruct (attempt_returns _ _ _ _ _ _ Ha) as (_ & _ & Hs).
      rewrite Hsite in Hs. destruct Hs as (_ & _ & Hm).
      unfold maxTriesReached in Hm. rewrite HM in Hm. discriminate.
    + intros Hret fuel.
      destruct (begins_retried fuel env
                  (applyOptions NewExponentialBackOff opts))
        as (nt & s & Hb); [auto|].
      destruct (begins_facts _ _ _ _ _ Hb) as (Hc & _).
      unfold Retry. unfold begins in Hb.
      pose proof (loop_advance fuel 0 env _ _ _ _ _ Hb) as HL.
      rewrite Nat.add_0_r in HL. rewrite HL. cbn. auto.
Qed.

(** C2, amended. A [MaxElapsedTime] that is zero or negative does not
    switch the driver's own check off: a failed attempt that the
    [MaxTries] check lets through returns by the elapsed-time check
    exactly when [time.Since(startedAt)] is greater than
    [MaxElapsedTime]; [Retry] then returns that attempt's result and
    error. *)
Theorem C2_MaxElapsedTime_check_is_not_disabled :
  forall (env : Env T) (opts : list RetryOption) k nt s r e,
    MaxElapsedTime (applyOptions NewExponentialBackOff opts) <= 0 ->
    begins env (applyOptions NewExponentialBackOff opts) k nt s ->
    operation env k = (r, Some e) ->
    maxTriesReached (applyOptions NewExponentialBackOff opts) nt = false ->
    (MaxElapsedTime (applyOptions NewExponentialBackOff opts) < since env k ->
     forall fuel,
       (k < fuel)%nat ->
       exists sf,
         Retry NewExponentialBackOff fuel env opts =
         (Some (mkOutcome r (Some e) ReturnMaxElapsedTime), sf) /\
         calls sf = S k) /\
    (since env k <= MaxElapsedTime (applyOptions NewExponentialBackOff opts) ->
     forall fuel out sf,
       Retry NewExponentialBackOff fuel env opts = (Some out, sf) ->
       calls sf = S k ->
       site out <> ReturnMaxElapsedTime).
Proof.
  intros env opts k nt s r e _ Hb Hop Hm.
  destruct (begins_facts _ _ _ _ _ Hb) as (Hc & _).
  split.
  - intros Hs fuel Hlt. rewrite <- Hc in Hop, Hs.
    pose proof (attempt_maxElapsedTime env _ nt s r e Hop Hm Hs) as Ha.
    eexists. split; [exact (Retry_returns _ _ _ _ _ _ _ _ Hb Ha Hlt)|].
    cbn. lia.
  - intros Hs fuel out sf HR Hcalls Hsite.
    destruct (Retry_inv _ _ _ _ _ HR)
      as [[Ho _]|(k' & nt' & s0 & out' & s' & _ & Hb' & Ha & Ho & ->)];
      [discriminate|].
    inversion Ho; subst out'.
    destruct (attempt_returns _ _ _ _ _ _ Ha) as (Hc' & _ & Hsi).
    destruct (begins_facts _ _ _ _ _ Hb') as (Hc0 & _).
    cbn in Hcalls. assert (Hk : k' = k) by lia. rewrite Hk in Hb'.
    destruct (begins_unique _ _ _ _ _ _ _ Hb Hb') as (<- & <-).
    rewrite Hsite in Hsi. destruct Hsi as (_ & _ & _ & Hlt).
    rewrite Hc in Hlt. lia.
Qed.

(** ** What every return has in common *)

Lemma loop_trace_Forall (P : event -> Prop) env args :
  (forall numTries s, Forall P (eventsOfAttempt env args numTries s)) ->
  forall fuel numTries s,
  exists tl,
    trace (snd (loop fuel env args numTries s)) = trace s ++ tl /\ Forall P tl.
Proof.
  intros Hstep. induction fuel as [|fuel IH]; intros numTries s.
  - exists []. cbn. rewrite app_nil_r. auto.
  - cbn [loop].
    pose proof (attempt_trace env args numTries s) as Ht.
    pose proof (Hstep numTries s) as Hs.
    destruct (attempt env args numTries s) as [[u|out] s1] eqn:E;
      cbn [snd] in *.
    + destruct (IH (uint_wrap (numTries + 1)) s1) as (tl & Htl & HP).
      exists (eventsOfAttempt env args numTries s ++ tl).
      rewrite Htl, Ht, <- app_assoc. split; auto. apply Forall_app. auto.
    + exists (eventsOfAttempt env args numTries s). auto.
Qed.

Lemma attempt_no_TimerStop env args numTries s :
  Forall (fun ev => isTimerStop ev = false)
    (eventsOfAttempt env args numTries s).
Proof. events_cases env args numTries s; repeat constructor. Qed.

(** The deferred [args.Timer.Stop()] of line 83 runs on every return,
    whatever the [return] statement: when [Retry] has returned, the stop of
    the configured timer is the last call it made and the only stop; as
    long as it has not returned, the timer has not been stopped. *)
Theorem timer_stopped_once_on_every_return :
  forall fuel (env : Env T) (opts : list RetryOption),
    (forall out,
        fst (Retry NewExponentialBackOff fuel env opts) = Some out ->
        exists tr,
          trace (snd (Retry NewExponentialBackOff fuel env opts)) =
          tr ++ [EvTimerStop (optTimer (applyOptions NewExponentialBackOff opts))] /\
          forall ev, In ev tr -> isTimerStop ev = false) /\
    (fst (Retry NewExponentialBackOff fuel env opts) = None ->
     forall ev,
       In ev (trace (snd (Retry NewExponentialBackOff fuel env opts))) ->
       isTimerStop ev = false).
Proof.
  intros fuel env opts. unfold Retry.
  destruct (loop_trace_Forall (fun ev => isTimerStop ev = false) env
              (applyOptions NewExponentialBackOff opts)
              (attempt_no_TimerStop env _) fuel 1
              (start (applyOptions NewExponentialBackOff opts)))
    as (tl & Htl & HP).
  rewrite Forall_forall in HP.
  destruct (loop fuel env (applyOptions NewExponentialBackOff opts) 1
              (start (applyOptions NewExponentialBackOff opts)))
    as [[out|] s1]; cbn [fst snd stopTimer trace start] in *; split;
    try discriminate.
  - intros out' _. exists (EvReset :: tl). rewrite Htl. split; [reflexivity|].
    intros ev [<-|Hin]; auto.
  - intros _ ev Hin. rewrite Htl in Hin. destruct Hin as [<-|Hin]; auto.
Qed.


Lemma attempt_returns_failed env args numTries s out s' :
  attempt env args numTries s = (inr out, s') ->
  site out <> ReturnSuccess ->
  snd (operation env (calls s)) <> None.
Proof.
  attempt_cases env args numTries s; intros Ha Hs; inversion Ha; subst;
    cbn in *; try discriminate; exfalso; apply Hs; reflexivity.
Qed.

(** Under a context that keeps its contract ([Err()] is non-nil once
    [Done] is closed), [Retry] returns a nil error exactly when the last
    invocation of the operation returned one; it then returns by the
    [return] of line 90. *)
Theorem nil_error_only_on_success :
  forall fuel (env : Env T) (opts : list RetryOption) out sf,
    (forall k, selected env k <> CtxDone None) ->
    Retry NewExponentialBackOff fuel env opts = (Some out, sf) ->
    (err out = None <-> snd (operation env (pred (calls sf))) = None) /\
    (err out = None -> site out = ReturnSuccess).
Proof.
  intros fuel env opts out sf Hdone HR.
  destruct (Retry_inv _ _ _ _ _ HR)
    as [[Ho _]|(k & nt & s & out' & s' & _ & Hb & Ha & Ho & ->)];
    [discriminate|].
  inversion Ho; subst out'.
  destruct (attempt_returns _ _ _ _ _ _ Ha) as (Hc & Hres & Hsite).
  pose proof (attempt_returns_failed _ _ _ _ _ _ Ha) as Hfail.
  cbn [stopTimer calls]. rewrite Hc. cbn [pred].
  destruct (site out) eqn:Hs.
  - destruct Hsite as (H1 & H2). split; [split; auto|auto].
  - destruct Hsite as (H1 & H2 & _).
    split; [split; intros H; congruence|intros H; congruence].
  - destruct Hsite as (H1 & H2 & _).
    split; [split; intros H; congruence|intros H; congruence].
  - destruct Hsite as (H2 & _ & _ & (e & He & _)).
    split; [split; intros H; congruence|intros H; congruence].
  - destruct Hsite as (H1 & H2 & _).
    split; [split; intros H; congruence|intros H; congruence].
  - destruct Hsite as (H1 & H2).
    assert (Hf : snd (operation env (calls s)) <> None)
      by (apply Hfail; discriminate).
    split; [split; intros H; contradiction|intros H; contradiction].
  - assert (Hf : snd (operation env (calls s)) <> None)
      by (apply Hfail; discriminate).
    assert (He : err out <> None).
    { intros He. rewrite He in Hsite. exact (Hdone _ Hsite). }
    split; [split; intros H; contradiction|intros H; contradiction].
Qed.

(** ** Bounds on the number of attempts *)

Lemma Retry_calls_le_fuel fuel env opts :
  (calls (snd (Retry NewExponentialBackOff fuel env opts)) <= fuel)%nat.
Proof.
  destruct (Retry NewExponentialBackOff fuel env opts) as [o sf] eqn:E.
  destruct (Retry_inv _ _ _ _ _ E)
    as [[_ [nt Hb]]|(k & nt & s & out & s' & Hk & Hb & Ha & _ & ->)];
    destruct (begins_facts _ _ _ _ _ Hb) as (Hc & _ & _); cbn.
  - lia.
  - destruct (attempt_returns _ _ _ _ _ _ Ha) as (Hc' & _). lia.
Qed.

(** With [MaxTries = n > 0] no attempt of index [n] or more begins. *)
Lemma begins_below_MaxTries env args n k nt s :
  0 < n < 2 ^ 64 ->
  MaxTries args = n ->
  begins env args k nt s ->
  (S k <= Z.to_nat n)%nat.
Proof.
  intros Hn HM Hb.
  destruct (le_lt_dec (S k) (Z.to_nat n)) as [Hle|Hgt]; [exact Hle|exfalso].
  assert (Hpred : S (pred (Z.to_nat n)) = Z.to_nat n) by lia.
  destruct (advance_shorter _ (S (pred (Z.to_nat n))) _ _ _ _ _ _ Hb
              ltac:(lia)) as (nt2 & s2 & H2).
  destruct (advance_last _ _ _ _ _ _ _ H2) as (nt1 & s1 & u & H1 & Ha & _).
  destruct (begins_facts _ _ _ _ _ H1) as (_ & Hnt & _).
  destruct (attempt_continues _ _ _ _ _ _ Ha) as (_ & Hm & _).
  unfold maxTriesReached in Hm. rewrite HM, Hnt in Hm.
  replace (Z.of_nat (pred (Z.to_nat n)) + 1) with n in Hm by lia.
  rewrite (uint_wrap_small n) in Hm by lia.
  assert ((0 <? n) = true) by (apply Z.ltb_lt; lia).
  assert ((n <=? n) = true) by (apply Z.leb_le; lia).
  rewrite H, H0 in Hm. discriminate.
Qed.

(** With [MaxTries = n > 0], whatever the operation does, [Retry] never
    invokes it more than [n] times, and it has returned once it was given
    the time for [n] attempts. *)
Theorem MaxTries_bounds_every_run :
  forall (env : Env T) (opts : list RetryOption) n,
    0 < n < 2 ^ 64 ->
    MaxTries (applyOptions NewExponentialBackOff opts) = n ->
    (forall fuel,
        (calls (snd (Retry NewExponentialBackOff fuel env opts))
         <= Z.to_nat n)%nat) /\
    (forall fuel,
        (Z.to_nat n <= fuel)%nat ->
        exists out sf,
          Retry NewExponentialBackOff fuel env opts = (Some out, sf)).
Proof.
  intros env opts n Hn HM. split.
  - intros fuel.
    destruct (Retry NewExponentialBackOff fuel env opts) as [o sf] eqn:E.
    destruct (Retry_inv _ _ _ _ _ E)
      as [[_ [nt Hb]]|(k & nt & s & out & s' & Hk & Hb & Ha & _ & ->)];
      pose proof (begins_below_MaxTries _ _ _ _ _ _ Hn HM Hb) as Hle;
      destruct (begins_facts _ _ _ _ _ Hb) as (Hc & _ & _); cbn.
    + lia.
    + destruct (attempt_returns _ _ _ _ _ _ Ha) as (Hc' & _). lia.
  - intros fuel Hfuel.
    destruct (begins_or_returned env (applyOptions NewExponentialBackOff opts)
                (Z.to_nat n))
      as [(nt & s & Hb)|(k & nt & s & out & s' & Hk & Hb & Ha)].
    + pose proof (begins_below_MaxTries _ _ _ _ _ _ Hn HM Hb). lia.
    + assert (Hlt : (k < fuel)%nat) by lia.
      eexists out, _. exact (Retry_returns _ _ _ _ _ _ _ _ Hb Ha Hlt).
Qed.

(** The attempt of index [m] is the last one at the latest when, at that
    attempt, the clock reads more than [MaxElapsedTime], or the generator
    answers [Stop] to its call of index [m] since [Reset], or the context
    is found cancelled: [Retry] then returns after at most [m + 1]
    invocations. *)
Theorem deadline_Stop_or_cancellation_bounds_the_run :
  forall (env : Env T) (opts : list RetryOption) m fuel,
    MaxElapsedTime (applyOptions NewExponentialBackOff opts) < since env m \/
    fst (NextBackOff
           (nextN m (Reset (optBackOff (applyOptions NewExponentialBackOff opts)))))
    = Stop \/
    ctxErr env m <> None \/
    selected env m <> TimerFired ->
    (m < fuel)%nat ->
    exists out sf,
      Retry NewExponentialBackOff fuel env opts = (Some out, sf) /\
      (calls sf <= S m)%nat.
Proof.
  intros env opts m fuel Hend Hlt.
  destruct (begins_or_returned env (applyOptions NewExponentialBackOff opts) m)
    as [(nt & s & Hb)|(k & nt & s & out & s' & Hk & Hb & Ha)].
  - destruct (begins_facts _ _ _ _ _ Hb) as (Hc & _ & Hbo).
    destruct (attempt env (applyOptions NewExponentialBackOff opts) nt s)
      as [[u|out] s1] eqn:Ha.
    + exfalso.
      destruct (attempt_continues _ _ _ _ _ _ Ha)
        as (_ & _ & H1 & H2 & H3 & H4 & _).
      rewrite Hc in H1, H3, H4. rewrite Hbo in H2.
      destruct Hend as [H|[H|[H|H]]]; [lia|auto|auto|auto].
    + eexists out, _. split; [exact (Retry_returns _ _ _ _ _ _ _ _ Hb Ha Hlt)|].
      destruct (attempt_returns _ _ _ _ _ _ Ha) as (Hc' & _). cbn. lia.
  - assert (Hlt' : (k < fuel)%nat) by lia.
    eexists out, _. split; [exact (Retry_returns _ _ _ _ _ _ _ _ Hb Ha Hlt')|].
    destruct (attempt_returns _ _ _ _ _ _ Ha) as (Hc' & _).
    destruct (begins_facts _ _ _ _ _ Hb) as (Hc & _). cbn. lia.
Qed.

(** ** The checks that come before the context *)

(** When a failed attempt is ended by one of the four checks of lines 93 to
    109 ([MaxTries] reached, [MaxElapsedTime] passed, a permanent error,
    [Stop] from the generator), [Retry] returns the operation's result and
    its error as the operation gave it, whatever the context answers: the
    context is not consulted in that attempt, [Notify] is not called and the
    timer is not started. *)
Theorem exhaustion_returns_the_operation_error :
  forall (env : Env T) (opts : list RetryOption) k nt s r e fuel,
    begins env (applyOptions NewExponentialBackOff opts) k nt s ->
    operation env k = (r, Some e) ->
    maxTriesReached (applyOptions NewExponentialBackOff opts) nt = true \/
    MaxElapsedTime (applyOptions NewExponentialBackOff opts) < since env k \/
    asPermanent e <> None \/
    fst (NextBackOff (backoff s)) = Stop ->
    (k < fuel)%nat ->
    exists x sf,
      Retry NewExponentialBackOff fuel env opts =
      (Some (mkOutcome r (Some e) x), sf) /\
      calls sf = S k /\
      x <> ReturnCtxErr /\ x <> ReturnCtxDone /\
      forall ev,
        In ev (eventsOfAttempt env (applyOptions NewExponentialBackOff opts) nt s) ->
        detectsCancel ev = false /\ isNotify ev = false /\
        isTimerStart ev = false.
Proof.
  intros env opts k nt s r e fuel Hb Hr Hend Hlt.
  destruct (begins_facts _ _ _ _ _ Hb) as (Hc & _).
  rewrite <- Hc in Hr, Hend.
  assert (Ha : exists x s',
             attempt env (applyOptions NewExponentialBackOff opts) nt s =
             (inr (mkOutcome r (Some e) x), s') /\
             x <> ReturnCtxErr /\ x <> ReturnCtxDone /\
             forall ev,
               In ev (eventsOfAttempt env
                        (applyOptions NewExponentialBackOff opts) nt s) ->
               detectsCancel ev = false /\ isNotify ev = false /\
               isTimerStart ev = false).
  { revert Hr.
    events_cases env (applyOptions NewExponentialBackOff opts) nt s;
      intros Hr; inversion Hr; subst;
      try (exfalso;
           destruct Hend as [H|[H|[H|H]]];
           [ discriminate H
           | apply Z.ltb_ge in Hsince; lia
           | destruct (asPermanent e); [discriminate Hperm|contradiction]
           | apply Z.eqb_neq in Hstop; contradiction ]);
      (eexists _, _; split; [reflexivity|]);
      (split; [discriminate|]); (split; [discriminate|]);
      intros ev Hin; in_list Hin; subst ev; auto. }
  destruct Ha as (x & s' & Ha & Hx1 & Hx2 & Hev).
  exists x, (stopTimer (applyOptions NewExponentialBackOff opts) s').
  split; [exact (Retry_returns _ _ _ _ _ _ _ _ Hb Ha Hlt)|].
  split; [|auto].
  destruct (attempt_returns _ _ _ _ _ _ Ha) as (Hc' & _). cbn. lia.
Qed.

Lemma asPermanent_wrapMany msgs e :
  asPermanent (wrapMany msgs e) = asPermanent e.
Proof. induction msgs as [|m msgs IH]; cbn; auto. Qed.

(** A [PermanentError] is recognised through any number of [%w] wrappings:
    an operation error that wraps one, however deep, ends the call at that
    attempt, with no further invocation, no call of [Notify] and no wait. *)
Theorem wrapped_permanent_error_ends_the_call :
  forall (env : Env T) (opts : list RetryOption) k nt s r msgs Err fuel,
    begins env (applyOptions NewExponentialBackOff opts) k nt s ->
    operation env k = (r, Some (wrapMany msgs (PermanentError Err))) ->
    (k < fuel)%nat ->
    exists out sf,
      Retry NewExponentialBackOff fuel env opts = (Some out, sf) /\
      res out = r /\
      asPermanent (wrapMany msgs (PermanentError Err)) = Some Err /\
      calls sf = S k /\
      forall ev,
        In ev (eventsOfAttempt env (applyOptions NewExponentialBackOff opts) nt s) ->
        isNotify ev = false /\ isTimerStart ev = false.
Proof.
  intros env opts k nt s r msgs Err fuel Hb Hr Hlt.
  assert (Hp : asPermanent (wrapMany msgs (PermanentError Err)) = Some Err)
    by (rewrite asPermanent_wrapMany; reflexivity).
  destruct (permanent_error_ends_the_call env opts k nt s r _ fuel Hb Hr
              ltac:(rewrite Hp; discriminate) Hlt)
    as (x & sf & HR & Hc & Hev).
  eexists _, sf. split; [exact HR|]. auto.
Qed.

(** ** The waits *)

Lemma timerStartPlaced_app args a b :
  timerStartPlaced args a -> timerStartPlaced args b ->
  timerStartPlaced args (a ++ b).
Proof.
  intros Ha Hb pre post t d H.
  destruct (app_split _ _ _ _ _ H) as [(post1 & H1 & ->)|(pre2 & -> & H2)].
  - destruct (Ha _ _ _ _ H1) as (Ht & Hd & (w & post' & ->) & Hpre).
    repeat split; auto. exists w, (post' ++ b). reflexivity.
  - destruct (Hb _ _ _ _ H2) as (Ht & Hd & Hpost & (pre' & e & ->)).
    repeat split; auto. exists (a ++ pre'), e. rewrite app_assoc. reflexivity.
Qed.

Lemma timerStartPlaced_single args ev :
  isTimerStart ev = false -> timerStartPlaced args [ev].
Proof.
  intros Hev pre post t d H. find_split H pre; discriminate Hev.
Qed.

Lemma timerStartPlaced_attempt env args numTries s :
  timerStartPlaced args (eventsOfAttempt env args numTries s).
Proof.
  unfold timerStartPlaced.
  events_cases env args numTries s; intros pre post t d H;
    find_split H pre;
    (repeat split; auto;
     [ apply Z.eqb_neq; exact Hstop
     | eexists _, _; reflexivity
     | eexists [_; _], _; reflexivity ]).
  Unshelve. all: exact None.
Qed.

(** In every run of [Retry], each [Timer.Start] is made on the configured
    timer with the delay [NextBackOff] has just answered; that delay is
    never [Stop]; the call comes after [ctx.Err()] answered nil (and after
    the call of [Notify] when one is configured) and is followed at once by
    the [select]. *)
Theorem timer_started_with_the_generator_delay :
  forall fuel (env : Env T) (opts : list RetryOption) pre post t d,
    trace (snd (Retry NewExponentialBackOff fuel env opts)) =
    pre ++ EvTimerStart t d :: post ->
    t = optTimer (applyOptions NewExponentialBackOff opts) /\
    d <> Stop /\
    (exists w post', post = EvSelect w :: post') /\
    (exists pre' e,
        pre = pre' ++ EvNextBackOff d :: EvCtxErr None ::
                (if optNotify (applyOptions NewExponentialBackOff opts)
                 then [EvNotify e d] else [])).
Proof.
  intros fuel env opts.
  apply (Retry_trace_closed
           (timerStartPlaced (applyOptions NewExponentialBackOff opts))).
  - apply timerStartPlaced_app.
  - apply timerStartPlaced_single. reflexivity.
  - apply timerStartPlaced_single. reflexivity.
  - apply timerStartPlaced_attempt.
Qed.

(** The events of an attempt begin with the invocation of the operation
    and hold no other. *)
Lemma attempt_operation_first env args numTries s pre e post :
  eventsOfAttempt env args numTries s = pre ++ EvOperation e :: post ->
  pre = [] /\ e = snd (operation env (calls s)).
Proof.
  events_cases env args numTries s; intros H; find_split H pre; auto.
Qed.

Lemma continuing_events_end_with_wait env args numTries s u s' :
  attempt env args numTries s = (inl u, s') ->
  exists pre t d,
    eventsOfAttempt env args numTries s =
    pre ++ [EvTimerStart t d; EvSelect TimerFired].
Proof.
  events_cases env args numTries s; intros H; try discriminate H.
  - eexists [_; _; _; _; _], _, _. reflexivity.
  - eexists [_; _; _; _], _, _. reflexivity.
Qed.

Lemma begins_ordered k : forall env args nt s,
  begins env args k nt s ->
  readyToInvoke (trace s) /\ invokedAfterWait (trace s).
Proof.
  unfold begins. induction k as [|k IH]; intros env args nt s H.
  - cbn [advance] in H. inversion H; subst. split.
    + left. reflexivity.
    + intros pre e post Hs. cbn in Hs. find_split Hs pre.
  - destruct (advance_last _ _ _ _ _ _ _ H) as (nt1 & s1 & u & H1 & H2 & _).
    destruct (IH _ _ _ _ H1) as (Hready & Hinv).
    pose proof (attempt_trace env args nt1 s1) as Ht.
    rewrite H2 in Ht. cbn [snd] in Ht. rewrite Ht.
    destruct (continuing_events_end_with_wait _ _ _ _ _ _ H2)
      as (p & t & d & Hseg).
    split.
    + right. exists (trace s1 ++ p), t, d. rewrite Hseg, app_assoc. reflexivity.
    + intros pre e post Hs.
      destruct (app_split _ _ _ _ _ Hs) as [(post1 & Hs1 & _)|(pre2 & -> & Hs2)].
      * exact (Hinv _ _ _ Hs1).
      * destruct (attempt_operation_first _ _ _ _ _ _ _ Hs2) as (-> & _).
        rewrite app_nil_r. exact Hready.
Qed.

(** In every run of [Retry], the operation is invoked either as the first
    thing after the [Reset] that opens the call, or right after a wait that
    the timer ended: an attempt never starts before the wait that follows
    the attempt before it is over, and never after a wait that the context
    ended. *)
Theorem operation_invoked_only_after_a_completed_wait :
  forall fuel (env : Env T) (opts : list RetryOption) pre e post,
    trace (snd (Retry NewExponentialBackOff fuel env opts)) =
    pre ++ EvOperation e :: post ->
    pre = [EvReset] \/
    exists pre' t d, pre = pre' ++ [EvTimerStart t d; EvSelect TimerFired].
Proof.
  intros fuel env opts pre e post Hs.
  change (readyToInvoke pre).
  destruct (Retry NewExponentialBackOff fuel env opts) as [o sf] eqn:E.
  cbn [snd] in Hs.
  destruct (Retry_inv _ _ _ _ _ E)
    as [[_ [nt Hb]]|(k & nt & s & out & s' & _ & Hb & Ha & _ & ->)].
  - destruct (begins_ordered _ _ _ _ _ Hb) as (_ & Hinv).
    exact (Hinv _ _ _ Hs).
  - destruct (begins_ordered _ _ _ _ _ Hb) as (Hready & Hinv).
    pose proof (attempt_trace env (applyOptions NewExponentialBackOff opts)
                  nt s) as Ht.
    rewrite Ha in Ht. cbn [snd] in Ht.
    cbn [stopTimer trace] in Hs. rewrite Ht, <- app_assoc in Hs.
    destruct (app_split _ _ _ _ _ Hs) as [(post1 & Hs1 & _)|(pre2 & -> & Hs2)].
    + exact (Hinv _ _ _ Hs1).
    + destruct (app_split _ _ _ _ _ Hs2)
        as [(post1 & Hs3 & _)|(pre3 & -> & Hs3)].
      * destruct (attempt_operation_first _ _ _ _ _ _ _ Hs3) as (-> & _).
        rewrite app_nil_r. exact Hready.
      * exfalso. find_split Hs3 pre3.
Qed.

End RetryFacts.

(** * The driver on concrete calls *)

(** C1. An operation that returns [RetryAfter(1)] once and then succeeds,
    over a generator whose first delay is 500 ms: [Retry] starts the timer
    with the generator's 500 ms, not with the second the error carries, and
    does not call [Reset] after the wait: the only [Reset] is the one
    before the loop, and the generator is left grown to 1 s. *)
Theorem C1_RetryAfter_is_not_honoured :
  RetryAfter 1 = Some (RetryAfterError time.Second) /\
  asRetryAfter (RetryAfterError time.Second) = Some time.Second /\
  exists sf,
    Retry exampleBackOff 10
      (quietEnv (failsThenSucceeds 1 (RetryAfter 1) 0 7) 0) [] =
    (Some (mkOutcome 7 None ReturnSuccess), sf) /\
    trace sf =
    [EvReset;
     EvOperation (Some (RetryAfterError time.Second));
     EvSince 0;
     EvNextBackOff (500 * time.Millisecond);
     EvCtxErr None;
     EvTimerStart defaultTimer (500 * time.Millisecond);
     EvSelect TimerFired;
     EvOperation None;
     EvTimerStop defaultTimer] /\
    500 * time.Millisecond <> time.Second /\
    nextDelay (backoff sf) = 1000 * time.Millisecond /\
    nextDelay (Reset (backoff sf)) = 500 * time.Millisecond.
Proof.
  split; [reflexivity|]. split; [reflexivity|].
  eexists. split; [vm_compute; reflexivity|].
  repeat split; try reflexivity. discriminate.
Qed.

(** C3. An operation that always returns [Permanent(errors.New("x"))]:
    [Retry] returns after one invocation, without a wait or a call of
    [Notify], but the error it returns is the [PermanentError] the
    operation returned, not the error wrapped in it. *)
Theorem C3_permanent_error_is_returned_with_its_wrapper :
  Permanent (Some errX) = Some (PermanentError (Some errX)) /\
  exists sf,
    Retry exampleBackOff 10
      (quietEnv (alwaysFails (Permanent (Some errX)) 0) 0) [WithNotify true] =
    (Some (mkOutcome 0 (Some (PermanentError (Some errX))) ReturnPermanent), sf) /\
    calls sf = 1%nat /\
    trace sf =
    [EvReset;
     EvOperation (Some (PermanentError (Some errX)));
     EvSince 0;
     EvTimerStop defaultTimer] /\
    Some (PermanentError (Some errX)) <> Some errX /\
    Unwrap (PermanentError (Some errX)) = Some errX.
Proof.
  split; [reflexivity|].
  eexists. split; [vm_compute; reflexivity|].
  repeat split; try reflexivity. discriminate.
Qed.

(** C2, as stated, fails: with [MaxElapsedTime = 0], a first attempt that
    fails one nanosecond after the start makes [Retry] return through the
    elapsed-time check. *)
Lemma C2_counterexample :
  MaxElapsedTime (applyOptions exampleBackOff [WithMaxElapsedTime 0]) <= 0 /\
  exists sf,
    Retry exampleBackOff 10 (quietEnv (alwaysFails (Some errX) 0) 1)
      [WithMaxElapsedTime 0] =
    (Some (mkOutcome 0 (Some errX) ReturnMaxElapsedTime), sf) /\
    trace sf =
    [EvReset; EvOperation (Some errX); EvSince 1; EvTimerStop defaultTimer].
Proof.
  split; [vm_compute; discriminate|].
  eexists. split; [vm_compute; reflexivity|reflexivity].
Qed.

(** The amended C2 at the call of the counterexample. *)
Lemma C2_witness :
  exists sf,
    Retry exampleBackOff 3 (quietEnv (alwaysFails (Some errX) 0) 1)
      [WithMaxElapsedTime 0] =
    (Some (mkOutcome 0 (Some errX) ReturnMaxElapsedTime), sf) /\
    calls sf = 1%nat.
Proof.
  refine (proj1 (C2_MaxElapsedTime_check_is_not_disabled exampleBackOff
                   (quietEnv (alwaysFails (Some errX) 0) 1)
                   [WithMaxElapsedTime 0] 0 1
                   (start (applyOptions exampleBackOff [WithMaxElapsedTime 0]))
                   0 errX _ _ _ _) _ 3%nat _).
  - vm_compute. discriminate.
  - reflexivity.
  - reflexivity.
  - reflexivity.
  - vm_compute. reflexivity.
  - lia.
Defined.

(** C4, as stated, fails: with [MaxTries = 2], an operation that always
    fails with a permanent error is invoked once, not twice. *)
Lemma C4_counterexample :
  MaxTries (applyOptions exampleBackOff [WithMaxTries 2]) = 2 /\
  (forall k,
      snd (operation (quietEnv (alwaysFails (Permanent (Some errX)) 0) 0) k)
      <> None) /\
  exists out sf,
    Retry exampleBackOff 10
      (quietEnv (alwaysFails (Permanent (Some errX)) 0) 0) [WithMaxTries 2] =
    (Some out, sf) /\
    site out = ReturnPermanent /\
    calls sf = 1%nat /\
    calls sf <> 2%nat.
Proof.
  split; [reflexivity|]. split; [intros k; discriminate|].
  eexists _, _. split; [vm_compute; reflexivity|].
  repeat split. discriminate.
Qed.

(** The amended C4 on [MaxTries = 3] and an operation that always fails
    with a plain error: three invocations. *)
Lemma C4_witness :
  exists sf,
    Retry exampleBackOff 5 (quietEnv (alwaysFails (Some errX) 0) 0)
      [WithMaxTries 3] =
    (Some (mkOutcome 0 (Some errX) ReturnMaxTries), sf) /\
    calls sf = 3%nat.
Proof.
  refine (proj2 (proj1 (C4_MaxTries_caps_the_attempts exampleBackOff
                          (quietEnv (alwaysFails (Some errX) 0) 0)
                          [WithMaxTries 3])
                   3 5%nat _ _ _ _) _).
  - lia.
  - reflexivity.
  - intros k. discriminate.
  - vm_compute. lia.
  - intros j Hj. destruct j as [|[|j]]; [reflexivity|reflexivity|].
    exfalso. vm_compute in Hj. lia.
Defined.



(** C7 on the first call of [Notify] of a run with [MaxTries = 2]. *)
Lemma C7_witness :
  optNotify (applyOptions exampleBackOff [WithMaxTries 2; WithNotify true]) = true /\
  (exists pre' elapsed,
      [EvReset; EvOperation (Some errX); EvSince 0;
       EvNextBackOff (500 * time.Millisecond); EvCtxErr None] =
      pre' ++ [EvOperation (Some errX); EvSince elapsed;
               EvNextBackOff (500 * time.Millisecond); EvCtxErr None]) /\
  (exists post',
      [EvTimerStart defaultTimer (500 * time.Millisecond); EvSelect TimerFired;
       EvOperation (Some errX); EvTimerStop defaultTimer] =
      EvTimerStart
        (optTimer (applyOptions exampleBackOff [WithMaxTries 2; WithNotify true]))
        (500 * time.Millisecond) :: post').
Proof.
  refine (proj1 (C7_Notify_before_each_wait_never_on_return exampleBackOff 5
                   (quietEnv (alwaysFails (Some errX) 0) 0)
                   [WithMaxTries 2; WithNotify true])
            [EvReset; EvOperation (Some errX); EvSince 0;
             EvNextBackOff (500 * time.Millisecond); EvCtxErr None]
            [EvTimerStart defaultTimer (500 * time.Millisecond);
             EvSelect TimerFired; EvOperation (Some errX);
             EvTimerStop defaultTimer]
            (Some errX) (500 * time.Millisecond) _).
  vm_compute. reflexivity.
Defined.

(** C10 on an operation that succeeds at once under a context that is
    cancelled from the beginning. *)
Lemma C10_witness :
  exists sf,
    Retry exampleBackOff 3
      (cancelledEnv (failsThenSucceeds 0 (Some errX) 0 7) 0) [] =
    (Some (mkOutcome 7 None ReturnSuccess), sf) /\
    calls sf = 1%nat.
Proof.
  refine (proj1 (C10_success_takes_precedence_over_cancellation exampleBackOff
                   (cancelledEnv (failsThenSucceeds 0 (Some errX) 0 7) 0) []
                   0 1 (start (applyOptions exampleBackOff [])) _)
            7 3%nat _ _).
  - reflexivity.
  - reflexivity.
  - lia.
Defined.

(** * The options, the retry-after error and the example *)



Lemma wrap64_range z : - 2 ^ 63 <= time.wrap64 z < 2 ^ 63.
Proof.
  unfold time.wrap64.
  pose proof (Z.mod_pos_bound (z + 2 ^ 63) (2 ^ 64) ltac:(lia)). lia.
Qed.

Lemma wrap64_small z : - 2 ^ 63 <= z < 2 ^ 63 -> time.wrap64 z = z.
Proof.
  intros H. unfold time.wrap64. rewrite Z.mod_small; lia.
Qed.

(** [RetryAfter(seconds)] is never nil and carries an [int64] duration; it
    carries exactly [seconds] seconds when [seconds] is between
    -9223372036 and 9223372036, the bounds beyond which the product with
    [time.Second] overflows (9223372037 seconds come out negative). Its
    message is the text "retry after " followed by the duration, and it is
    not a permanent error. *)
Theorem RetryAfter_carries_the_seconds :
  forall (seconds : Z) (DurationString : Duration -> string),
    (exists d,
        RetryAfter seconds = Some (RetryAfterError d) /\
        - 2 ^ 63 <= d < 2 ^ 63 /\
        Error DurationString (RetryAfterError d) =
        Some ("retry after " ++ DurationString d)%string /\
        asRetryAfter (RetryAfterError d) = Some d /\
        asPermanent (RetryAfterError d) = None) /\
    (-9223372036 <= seconds <= 9223372036 ->
     RetryAfter seconds = Some (RetryAfterError (seconds * 1000000000))) /\
    RetryAfter 9223372037 = Some (RetryAfterError (-9223372036709551616)) /\
    RetryAfter (-9223372037) = Some (RetryAfterError 9223372036709551616).
Proof.
  intros seconds DS. split; [|split; [|split]].
  - eexists. split; [reflexivity|]. split; [apply wrap64_range|].
    repeat split.
  - intros H. unfold RetryAfter. rewrite wrap64_small; [reflexivity|].
    change time.Second with 1000000000. lia.
  - vm_compute. reflexivity.
  - vm_compute. reflexivity.
Qed.

(** The seconds of a [Retry-After] header of one minute. *)
Lemma RetryAfter_carries_the_seconds_witness :
  RetryAfter 60 = Some (RetryAfterError (60 * 1000000000)).
Proof.
  refine (proj1 (proj2 (RetryAfter_carries_the_seconds 60
                          (fun _ => EmptyString))) _).
  lia.
Defined.

(** In [ExampleRetry], a response with status 400 ends the call at that
    request: the operation returns [Permanent(errors.New("bad request"))],
    and [Retry] returns after it with the empty string and that error,
    without calling [Notify] and without waiting. *)
Theorem example_bad_request_is_not_retried :
  forall (neb : BackOff) replies elapsed (opts : list RetryOption) k nt s fuel,
    begins (exampleEnv replies elapsed) (applyOptions neb opts) k nt s ->
    getErr (replies k) = None ->
    StatusCode (replies k) = 400 ->
    (k < fuel)%nat ->
    exists x sf,
      Retry neb fuel (exampleEnv replies elapsed) opts =
      (Some (mkOutcome EmptyString
               (Permanent (Some (errorString "bad request"))) x), sf) /\
      calls sf = S k /\
      forall ev,
        In ev (eventsOfAttempt (exampleEnv replies elapsed)
                 (applyOptions neb opts) nt s) ->
        isNotify ev = false /\ isTimerStart ev = false.
Proof.
  intros neb replies elapsed opts k nt s fuel Hb Hget Hst Hlt.
  apply (permanent_error_ends_the_call neb (exampleEnv replies elapsed) opts
           k nt s EmptyString (PermanentError (Some (errorString "bad request")))
           fuel Hb); [|discriminate|exact Hlt].
  cbn. unfold exampleOperation. rewrite Hget, Hst. reflexivity.
Qed.

(** In [ExampleRetry], the operation reports a failure only for an error of
    [http.Get], a status 400, or a status 429 whose [Retry-After] header is
    read as a number. Every other response (a status 500, a 429 with an
    unreadable header) counts as a success: [Retry] returns "hello" with a
    nil error right after that request. *)
Theorem example_other_responses_are_successes :
  forall (neb : BackOff) replies elapsed (opts : list RetryOption) k nt s fuel,
    begins (exampleEnv replies elapsed) (applyOptions neb opts) k nt s ->
    getErr (replies k) = None ->
    StatusCode (replies k) <> 400 ->
    StatusCode (replies k) <> 429 \/ retryAfterSeconds (replies k) = None ->
    (k < fuel)%nat ->
    exists sf,
      Retry neb fuel (exampleEnv replies elapsed) opts =
      (Some (mkOutcome "hello"%string None ReturnSuccess), sf) /\
      calls sf = S k.
Proof.
  intros neb replies elapsed opts k nt s fuel Hb Hget H400 H429 Hlt.
  destruct (success_returns neb (exampleEnv replies elapsed) opts k nt s
              "hello"%string fuel Hb) as (sf & HR & Hc & _); [|exact Hlt|eauto].
  cbn. unfold exampleOperation. rewrite Hget.
  apply Z.eqb_neq in H400. rewrite H400.
  destruct H429 as [H|H].
  - apply Z.eqb_neq in H. rewrite H. reflexivity.
  - rewrite H. destruct (StatusCode (replies k) =? 429); reflexivity.
Qed.

(** A server that answers 400 to the first request. *)
Lemma example_bad_request_is_not_retried_witness :
  exists x sf,
    Retry exampleBackOff 3
      (exampleEnv (fun _ => mkHttpReply None 400 None) 0) [] =
    (Some (mkOutcome EmptyString
             (Permanent (Some (errorString "bad request"))) x), sf) /\
    calls sf = 1%nat /\
    forall ev,
      In ev (eventsOfAttempt (exampleEnv (fun _ => mkHttpReply None 400 None) 0)
               (applyOptions exampleBackOff []) 1
               (start (applyOptions exampleBackOff []))) ->
      isNotify ev = false /\ isTimerStart ev = false.
Proof.
  refine (example_bad_request_is_not_retried exampleBackOff
            (fun _ => mkHttpReply None 400 None) 0 [] 0 1
            (start (applyOptions exampleBackOff [])) 3 _ _ _ _).
  - reflexivity.
  - reflexivity.
  - reflexivity.
  - lia.
Defined.

(** A server that answers 429 with an unreadable header, taken for a
    success. *)
Lemma example_other_responses_are_successes_witness :
  exists sf,
    Retry exampleBackOff 3
      (exampleEnv (fun _ => mkHttpReply None 429 None) 0) [] =
    (Some (mkOutcome "hello"%string None ReturnSuccess), sf) /\
    calls sf = 1%nat.
Proof.
  refine (example_other_responses_are_successes exampleBackOff
            (fun _ => mkHttpReply None 429 None) 0 [] 0 1
            (start (applyOptions exampleBackOff [])) 3 _ _ _ _ _).
  - reflexivity.
  - reflexivity.
  - cbn. discriminate.
  - right. reflexivity.
  - lia.
Defined.

(** * The further properties on concrete calls *)

(** A call that succeeds at once: the timer is stopped last. *)
Lemma timer_stopped_once_on_every_return_witness :
  exists tr,
    trace (snd (Retry exampleBackOff 3
                  (quietEnv (failsThenSucceeds 0 (Some errX) 0 7) 0) [])) =
    tr ++ [EvTimerStop defaultTimer] /\
    forall ev, In ev tr -> isTimerStop ev = false.
Proof.
  refine (proj1 (timer_stopped_once_on_every_return exampleBackOff 3
                   (quietEnv (failsThenSucceeds 0 (Some errX) 0 7) 0) [])
            (mkOutcome 7 None ReturnSuccess) _).
  reflexivity.
Defined.


(** An operation that fails once, then succeeds, under a context that is
    never cancelled. *)
Lemma nil_error_only_on_success_witness :
  let env := quietEnv (failsThenSucceeds 1 (Some errX) 0 7) 0 in
  let sf := snd (Retry exampleBackOff 5 env []) in
  ((@None errval) = None <-> snd (operation env (pred (calls sf))) = None) /\
  ((@None errval) = None -> ReturnSuccess = ReturnSuccess).
Proof.
  refine (nil_error_only_on_success exampleBackOff 5
            (quietEnv (failsThenSucceeds 1 (Some errX) 0 7) 0) []
            (mkOutcome 7 None ReturnSuccess)
            (snd (Retry exampleBackOff 5
                    (quietEnv (failsThenSucceeds 1 (Some errX) 0 7) 0) []))
            _ _).
  - intros k. cbn. discriminate.
  - vm_compute. reflexivity.
Defined.

(** [MaxTries = 2] over an operation that would succeed at its fourth
    invocation. *)
Lemma MaxTries_bounds_every_run_witness :
  let env := quietEnv (failsThenSucceeds 3 (Some errX) 0 7) 0 in
  (forall fuel,
      (calls (snd (Retry exampleBackOff fuel env [WithMaxTries 2]))
       <= Z.to_nat 2)%nat) /\
  (forall fuel,
      (Z.to_nat 2 <= fuel)%nat ->
      exists out sf,
        Retry exampleBackOff fuel env [WithMaxTries 2] = (Some out, sf)).
Proof.
  refine (MaxTries_bounds_every_run exampleBackOff
            (quietEnv (failsThenSucceeds 3 (Some errX) 0 7) 0) [WithMaxTries 2]
            2 _ _).
  - lia.
  - reflexivity.
Defined.

(** A generator that answers [Stop] at once: one invocation. *)
Lemma deadline_Stop_or_cancellation_bounds_the_run_witness :
  exists out sf,
    Retry exampleBackOff 3 (quietEnv (alwaysFails (Some errX) 0) 0)
      [WithBackOff stopBackOff] = (Some out, sf) /\
    (calls sf <= 1)%nat.
Proof.
  refine (deadline_Stop_or_cancellation_bounds_the_run exampleBackOff
            (quietEnv (alwaysFails (Some errX) 0) 0) [WithBackOff stopBackOff]
            0 3 _ _).
  - right. left. reflexivity.
  - lia.
Defined.

(** The cap of one attempt reached under a context that is cancelled: the
    error of the operation is returned. *)
Lemma exhaustion_returns_the_operation_error_witness :
  exists x sf,
    Retry exampleBackOff 3 (cancelledEnv (alwaysFails (Some errX) 0) 0)
      [WithMaxTries 1] = (Some (mkOutcome 0 (Some errX) x), sf) /\
    calls sf = 1%nat /\
    x <> ReturnCtxErr /\ x <> ReturnCtxDone /\
    forall ev,
      In ev (eventsOfAttempt (cancelledEnv (alwaysFails (Some errX) 0) 0)
               (applyOptions exampleBackOff [WithMaxTries 1]) 1
               (start (applyOptions exampleBackOff [WithMaxTries 1]))) ->
      detectsCancel ev = false /\ isNotify ev = false /\ isTimerStart ev = false.
Proof.
  refine (exhaustion_returns_the_operation_error exampleBackOff
            (cancelledEnv (alwaysFails (Some errX) 0) 0) [WithMaxTries 1]
            0 1 (start (applyOptions exampleBackOff [WithMaxTries 1]))
            0 errX 3 _ _ _ _).
  - reflexivity.
  - reflexivity.
  - left. reflexivity.
  - lia.
Defined.

(** A permanent error under two wrappings. *)
Lemma wrapped_permanent_error_ends_the_call_witness :
  exists out sf,
    Retry exampleBackOff 3
      (quietEnv
         (alwaysFails
            (Some (wrapMany ["outer"%string; "inner"%string]
                     (PermanentError (Some errX)))) 0) 0) [] = (Some out, sf) /\
    res out = 0 /\
    asPermanent (wrapMany ["outer"%string; "inner"%string]
                   (PermanentError (Some errX))) = Some (Some errX) /\
    calls sf = 1%nat /\
    forall ev,
      In ev (eventsOfAttempt
               (quietEnv
                  (alwaysFails
                     (Some (wrapMany ["outer"%string; "inner"%string]
                              (PermanentError (Some errX)))) 0) 0)
               (applyOptions exampleBackOff []) 1
               (start (applyOptions exampleBackOff []))) ->
      isNotify ev = false /\ isTimerStart ev = false.
Proof.
  refine (wrapped_permanent_error_ends_the_call exampleBackOff
            (quietEnv
               (alwaysFails
                  (Some (wrapMany ["outer"%string; "inner"%string]
                           (PermanentError (Some errX)))) 0) 0) []
            0 1 (start (applyOptions exampleBackOff [])) 0
            ["outer"%string; "inner"%string] (Some errX) 3 _ _ _).
  - reflexivity.
  - reflexivity.
  - lia.
Defined.

(** The one wait of a run that fails once, then succeeds. *)
Lemma timer_started_with_the_generator_delay_witness :
  defaultTimer = optTimer (applyOptions exampleBackOff []) /\
  500 * time.Millisecond <> Stop /\
  (exists w post',
      [EvSelect TimerFired; EvOperation None; EvTimerStop defaultTimer] =
      EvSelect w :: post') /\
  (exists pre' e,
      [EvReset; EvOperation (Some errX); EvSince 0;
       EvNextBackOff (500 * time.Millisecond); EvCtxErr None] =
      pre' ++ EvNextBackOff (500 * time.Millisecond) :: EvCtxErr None ::
        (if optNotify (applyOptions exampleBackOff [])
         then [EvNotify e (500 * time.Millisecond)] else [])).
Proof.
  refine (timer_started_with_the_generator_delay exampleBackOff 5
            (quietEnv (failsThenSucceeds 1 (Some errX) 0 7) 0) []
            [EvReset; EvOperation (Some errX); EvSince 0;
             EvNextBackOff (500 * time.Millisecond); EvCtxErr None]
            [EvSelect TimerFired; EvOperation None; EvTimerStop defaultTimer]
            defaultTimer (500 * time.Millisecond) _).
  vm_compute. reflexivity.
Defined.

(** The second invocation of that run follows the wait. *)
Lemma operation_invoked_only_after_a_completed_wait_witness :
  [EvReset; EvOperation (Some errX); EvSince 0;
   EvNextBackOff (500 * time.Millisecond); EvCtxErr None;
   EvTimerStart defaultTimer (500 * time.Millisecond); EvSelect TimerFired] =
  [EvReset] \/
  exists pre' t d,
    [EvReset; EvOperation (Some errX); EvSince 0;
     EvNextBackOff (500 * time.Millisecond); EvCtxErr None;
     EvTimerStart defaultTimer (500 * time.Millisecond); EvSelect TimerFired] =
    pre' ++ [EvTimerStart t d; EvSelect TimerFired].
Proof.
  refine (operation_invoked_only_after_a_completed_wait exampleBackOff 5
            (quietEnv (failsThenSucceeds 1 (Some errX) 0 7) 0) []
            [EvReset; EvOperation (Some errX); EvSince 0;
             EvNextBackOff (500 * time.Millisecond); EvCtxErr None;
             EvTimerStart defaultTimer (500 * time.Millisecond);
             EvSelect TimerFired]
            None [EvTimerStop defaultTimer] _).
  vm_compute. reflexivity.
Defined.
